(** * Beam analysis engine of the CE-app learning platform

    A shallow embedding of the computational core of the three Streamlit
    pages:

    - [src/app.py]: class [SimpleBeam] (any number of point loads);
    - [pages/02_Level_2]: class [BeamLevel2] (one point load, one UDL);
    - [pages/03_Level_3]: [solve_beam], the loop of [plot_answer], and the
      quiz handlers working on [st.session_state].

    Numbers.  The Python code computes in binary64 floats.  The development
    reads every float as the exact rational it denotes ([Q], compared with
    [==]), which is the reading under which the statics identities hold
    exactly; rounding is out of the model.  The one place where Python's
    arithmetic is partial, true division, is kept partial: [py_div] raises
    [ZeroDivisionError] on a zero divisor.  A float literal of the source
    stands for the double it denotes: the [0.1] of the quiz is [tolerance],
    the exact value of that double, which lies slightly above one tenth.
    Module [Binary64] repeats the quiz arithmetic on IEEE doubles, so that
    the concrete verdicts can be evaluated on the numbers Python really
    uses and compared with the verdicts on their exact values. *)

From Stdlib Require Import QArith Qabs Qminmax Lqa Lia ZArith List Floats.
From stdpp Require Import base option strings gmap.

Import ListNotations.
Local Open Scope Q_scope.

(** ** Python values and exceptions *)

(** The exceptions that matter.  [ZeroDivisionError] is what float division
    raises; [InvalidGeometry] is the error the specification names.  No
    [raise] statement occurs in the three source files. *)
Inductive exn : Set :=
| ZeroDivisionError
| InvalidGeometry.

Inductive result (A : Type) : Type :=
| Ok (a : A)
| Raise (e : exn).
Arguments Ok {A} a.
Arguments Raise {A} e.

Definition raised {A} (r : result A) : option exn :=
  match r with Ok _ => None | Raise e => Some e end.

(** [a / b] on Python floats. *)
Definition py_div (a b : Q) : result Q :=
  if Qeq_bool b 0 then Raise ZeroDivisionError else Ok (a / b).

(** [a > b] and [a < b] as booleans. *)
Definition Qgtb (a b : Q) : bool := negb (Qle_bool a b).
Definition Qltb (a b : Q) : bool := negb (Qle_bool b a).

(** Python's [min(a, b)]: [b] when [b < a], else [a]. *)
Definition py_min (a b : Q) : Q := if Qltb b a then b else a.

(** [numpy.linspace(start, stop, num)] with the default [endpoint=True]:
    [num] samples [start + i * step], [step = (stop - start) / (num - 1)].
    The call never raises; every call in the sources has [num = 500]. *)
Definition linspace (start stop : Q) (num : nat) : list Q :=
  let step := (stop - start) / inject_Z (Z.of_nat (num - 1)) in
  map (fun i => start + inject_Z (Z.of_nat i) * step) (seq 0 num).

(** Python's [max] over a non-empty list, as a left-to-right scan that keeps
    the first maximal element. *)
Definition py_max (l : list Q) : option Q :=
  match l with
  | [] => None
  | a :: l' => Some (fold_left (fun m v => if Qgtb v m then v else m) l' a)
  end.

(** ** Methods: state passing with exceptions

    A method reads and writes its object and either returns or raises; the
    object is handed back in both cases. *)
Definition method (S A : Type) : Type := S -> result A * S.

Definition ret {S A} (a : A) : method S A := fun s => (Ok a, s).

Definition bind {S A B} (c : method S A) (k : A -> method S B) : method S B :=
  fun s =>
    match c s with
    | (Ok a, s') => k a s'
    | (Raise e, s') => (Raise e, s')
    end.

Definition get {S} : method S S := fun s => (Ok s, s).
Definition put {S} (s : S) : method S unit := fun _ => (Ok tt, s).
Definition lift {S A} (r : result A) : method S A := fun s => (r, s).

Notation "x <- c ;; k" := (bind c (fun x => k))
  (at level 100, c at next level, right associativity).

Definition run {S A} (c : method S A) (s : S) : result A := fst (c s).
Definition exec {S A} (c : method S A) (s : S) : S := snd (c s).

(** ** Equality up to [==] on the shapes the solvers return *)

Definition Qs_eq : list Q -> list Q -> Prop := Forall2 Qeq.

Definition pair_eq (p q : Q * Q) : Prop :=
  fst p == fst q /\ snd p == snd q.

Definition result_eq {A} (R : A -> A -> Prop) (r s : result A) : Prop :=
  match r, s with
  | Ok a, Ok b => R a b
  | Raise e, Raise f => e = f
  | _, _ => False
  end.

(** ** [src/app.py]: [SimpleBeam] *)

Module Load.
(** One entry of [self.loads]: [{"type": "point", "P": P, "x": x}]. *)
Record t : Type := mk { type : string; P : Q; x : Q }.
End Load.

Module SimpleBeam.

Record t : Type := mk { length : Q; loads : list Load.t }.

Definition __init__ (length : Q) : t := mk length [].

Definition add_point_load (P x : Q) : method t unit :=
  self <- get ;;
  put (mk (length self) (loads self ++ [Load.mk "point" P x])).

(** One round of the loop of [solve_reactions] on the pair
    [(sum_moment_A, total_load)]. *)
Definition reactions_step (acc : Q * Q) (load : Load.t) : Q * Q :=
  let '(sum_moment_A, total_load) := acc in
  (sum_moment_A + Load.P load * Load.x load, total_load + Load.P load).

Definition solve_reactions : method t (Q * Q) :=
  self <- get ;;
  let '(sum_moment_A, total_load) :=
    fold_left reactions_step (loads self) (0, 0) in
  rb <- lift (py_div sum_moment_A (length self)) ;;
  let ra := total_load - rb in
  ret (ra, rb).

(** One round of the inner loop of [calculate_internal_forces] on [(V, M)],
    for the cut at [x]. *)
Definition cut_step (x : Q) (acc : Q * Q) (load : Load.t) : Q * Q :=
  let '(V, M) := acc in
  if Qgtb x (Load.x load)
  then (V - Load.P load, M - Load.P load * (x - Load.x load))
  else (V, M).

(** The body of the outer loop: [(V, M)] appended for the sample [x]. *)
Definition section (ls : list Load.t) (ra x : Q) : Q * Q :=
  fold_left (cut_step x) ls (ra, ra * x).

Definition calculate_internal_forces (ra rb : Q)
  : method t (list Q * list Q * list Q) :=
  self <- get ;;
  let x_coords := linspace 0 (length self) 500 in
  let shear_forces := map (fun x => fst (section (loads self) ra x)) x_coords in
  let bending_moments := map (fun x => snd (section (loads self) ra x)) x_coords in
  ret (x_coords, shear_forces, bending_moments).

End SimpleBeam.

(** The computation of the page of [src/app.py]: a fresh beam, one point
    load, the reactions, then the profile. *)
Definition app_page (L P x_p : Q) : result (Q * Q * list Q * list Q * list Q) :=
  run (_ <- SimpleBeam.add_point_load P x_p ;;
       r <- SimpleBeam.solve_reactions ;;
       let '(ra, rb) := r in
       f <- SimpleBeam.calculate_internal_forces ra rb ;;
       let '(x_vals, V_vals, M_vals) := f in
       ret (ra, rb, x_vals, V_vals, M_vals))
      (SimpleBeam.__init__ L).

(** ** [pages/02_Level_2]: [BeamLevel2] *)

Module PointLoad.
(** [self.point_load = {"P": P, "x": x_p}]. *)
Record t : Type := mk { P : Q; x : Q }.
End PointLoad.

Module UDL.
(** [self.udl = {"w": w, "start": w_start, "end": w_end}]; [w] in kN/m. *)
Record t : Type := mk { w : Q; start : Q; end_ : Q }.
End UDL.

Module BeamLevel2.

Record t : Type := mk { length : Q; point_load : PointLoad.t; udl : UDL.t }.

Definition __init__ (length : Q) : t :=
  mk length (PointLoad.mk 0 0) (UDL.mk 0 0 0).

(** Two attribute assignments, in the order of the source. *)
Definition set_loads (P x_p w w_start w_end : Q) : method t unit :=
  self <- get ;;
  _ <- put (mk (length self) (PointLoad.mk P x_p) (udl self)) ;;
  self <- get ;;
  put (mk (length self) (point_load self) (UDL.mk w w_start w_end)).

(** The body of the sampling loop: [(V, M)] appended for the sample [x]. *)
Definition section (pl : PointLoad.t) (u : UDL.t) (ra x : Q) : Q * Q :=
  let V := ra in
  let M := ra * x in
  let '(V, M) :=
    if Qgtb x (PointLoad.x pl)
    then (V - PointLoad.P pl, M - PointLoad.P pl * (x - PointLoad.x pl))
    else (V, M) in
  if Qgtb x (UDL.start u) then
    let cover_len := py_min x (UDL.end_ u) - UDL.start u in
    if Qgtb cover_len 0 then
      let force_segment := UDL.w u * cover_len in
      let moment_arm := x - (UDL.start u + cover_len / 2) in
      (V - force_segment, M - force_segment * moment_arm)
    else (V, M)
  else (V, M).

(** The two divisions by the literal [2] cannot raise and are written with
    [/]; the division by [L] goes through [py_div]. *)
Definition solve_analysis : method t (Q * Q * list Q * list Q * list Q) :=
  self <- get ;;
  let L := length self in
  let moment_from_point :=
    PointLoad.P (point_load self) * PointLoad.x (point_load self) in
  let udl_total_force :=
    UDL.w (udl self) * (UDL.end_ (udl self) - UDL.start (udl self)) in
  let udl_center := (UDL.start (udl self) + UDL.end_ (udl self)) / 2 in
  let moment_from_udl := udl_total_force * udl_center in
  rb <- lift (py_div (moment_from_point + moment_from_udl) L) ;;
  let ra := (PointLoad.P (point_load self) + udl_total_force) - rb in
  let x_vals := linspace 0 L 500 in
  let V_vals := map (fun x => fst (section (point_load self) (udl self) ra x)) x_vals in
  let M_vals := map (fun x => snd (section (point_load self) (udl self) ra x)) x_vals in
  ret (ra, rb, x_vals, V_vals, M_vals).

End BeamLevel2.

(** The computation of the Level 2 page: a fresh beam, [set_loads], then
    [solve_analysis]. *)
Definition level2_page (L P x_p w w_start w_end : Q)
  : result (Q * Q * list Q * list Q * list Q) :=
  run (_ <- BeamLevel2.set_loads P x_p w w_start w_end ;;
       BeamLevel2.solve_analysis)
      (BeamLevel2.__init__ L).

(** ** [pages/03_Level_3]: the quiz *)

Definition solve_beam (L P x : Q) : result (Q * Q) :=
  match py_div (P * x) L with
  | Ok rb => let ra := P - rb in Ok (ra, rb)
  | Raise e => Raise e
  end.

(** The body of the loop of [plot_answer] for the sample [val]. *)
Definition answer_section (P x ra val : Q) : Q * Q :=
  let V := ra in
  let M := ra * val in
  if Qgtb val x then (V - P, M - P * (val - x)) else (V, M).

(** What [plot_answer] draws: the three series, and the two numbers of the
    labels, [max(V_vals)] and [max(M_vals)]. *)
Record answer_figure : Type := mk_figure {
  x_vals : list Q;
  V_vals : list Q;
  M_vals : list Q;
  max_V : option Q;
  max_M : option Q
}.

Definition plot_answer (L P x ra rb : Q) : answer_figure :=
  let xs := linspace 0 L 500 in
  let Vs := map (fun val => fst (answer_section P x ra val)) xs in
  let Ms := map (fun val => snd (answer_section P x ra val)) xs in
  mk_figure xs Vs Ms (py_max Vs) (py_max Ms).

Module ExamData.
(** The dict stored under [st.session_state.exam_data]. *)
Record t : Type := mk { L : Q; P : Q; x : Q; has_generated : bool }.
End ExamData.

(** The problem installed when the session has none. *)
Definition default_exam : ExamData.t := ExamData.mk 10 100 5 false.

(** [if 'exam_data' not in st.session_state: ...]. *)
Definition init_session (st : gmap string ExamData.t) : gmap string ExamData.t :=
  match st !! "exam_data" with
  | None => <["exam_data" := default_exam]> st
  | Some _ => st
  end.

(** The read of the current problem, which every run of the page does after
    [init_session]. *)
Definition current_exam (st : gmap string ExamData.t) : ExamData.t :=
  default default_exam (init_session st !! "exam_data").

Section Generator.

(** Python's [random] module: a generator state and [randint a b], which
    draws from it. *)
Variable rng : Type.
Variable randint : Z -> Z -> rng -> Z * rng.

(** The handler of the button that generates a new problem.  [float(n)] and
    [n * 1.0] turn the drawn integers into floats. *)
Definition on_generate (st : gmap string ExamData.t) (g : rng)
  : gmap string ExamData.t * rng :=
  let '(new_L, g) := randint 5 20 g in
  let '(n, g) := randint 10 200 g in
  let new_P := inject_Z n * 1 in
  let '(n, g) := randint 1 (new_L - 1) g in
  let new_x := inject_Z n * 1 in
  (<["exam_data" := ExamData.mk (inject_Z new_L) new_P new_x true]> st, g).

End Generator.

(** The verdict of the submit handler: the two flags, and the figure, which
    is built only when both flags hold. *)
Record verdict : Type := mk_verdict {
  is_correct_ra : bool;
  is_correct_rb : bool;
  fig_ans : option answer_figure
}.

(** The literal [0.1] of the two tests.  Python reads it as the double
    [0x1.999999999999ap-4], whose exact value is [3602879701896397 / 2^55]:
    more than one tenth by about [5.6e-18].  No double lies from one tenth
    up to this value. *)
Definition tolerance : Q := 3602879701896397 # 36028797018963968.

Definition on_submit (st : gmap string ExamData.t) (user_ra user_rb : Q)
  : result verdict :=
  let e := current_exam st in
  let current_L := ExamData.L e in
  let current_P := ExamData.P e in
  let current_x := ExamData.x e in
  match solve_beam current_L current_P current_x with
  | Raise err => Raise err
  | Ok (true_ra, true_rb) =>
      let is_correct_ra := Qltb (Qabs (user_ra - true_ra)) tolerance in
      let is_correct_rb := Qltb (Qabs (user_rb - true_rb)) tolerance in
      Ok (mk_verdict is_correct_ra is_correct_rb
            (if is_correct_ra && is_correct_rb
             then Some (plot_answer current_L current_P current_x true_ra true_rb)
             else None))
  end.

(** The answer is marked correct when the success branch is taken. *)
Definition marked_correct (v : verdict) : bool :=
  is_correct_ra v && is_correct_rb v.

(** ** The quiz arithmetic on binary64

    [solve_beam] and the two tolerance tests again, on primitive floats:
    the operations are those of IEEE 754 doubles, as in CPython. *)

Module Binary64.
Local Open Scope float_scope.

(** Float division raises on [0.0] and on [-0.0]. *)
Definition py_div (a b : float) : result float :=
  if PrimFloat.eqb b 0 then Raise ZeroDivisionError else Ok (a / b).

Definition solve_beam (L P x : float) : result (float * float) :=
  match py_div (P * x) L with
  | Ok rb => let ra := P - rb in Ok (ra, rb)
  | Raise e => Raise e
  end.

(** [abs(user - truth) < 0.1]; the literal [0.1] is the double
    [0x1.999999999999ap-4]. *)
Definition is_correct (user truth : float) : bool :=
  PrimFloat.ltb (PrimFloat.abs (user - truth)) 0x1.999999999999ap-4.

(** The exact rational a finite double stands for. *)
Definition value (f : float) : option Q :=
  match Prim2SF f with
  | S754_zero _ => Some 0%Q
  | S754_finite s m e =>
      let q := match e with
               | Z0 => inject_Z (Zpos m)
               | Zpos p => inject_Z (Zpos m * 2 ^ Zpos p)
               | Zneg p => Qmake (Zpos m) (2 ^ p)
               end in
      Some (if s then Qopp q else q)
  | S754_infinity _ | S754_nan => None
  end.

(** The test of the handler on the exact values of two doubles. *)
Definition is_correct_on_values (user truth : float) : option bool :=
  match value user, value truth with
  | Some u, Some t => Some (Qltb (Qabs (u - t)%Q) tolerance)
  | _, _ => None
  end.

(** The doubles around [truth + 0.1] and [truth - 0.1], where the verdict
    changes. *)
Definition boundary_answers (truth : float) : list float :=
  let hi := truth + 0x1.999999999999ap-4 in
  let lo := truth - 0x1.999999999999ap-4 in
  [next_down hi; hi; next_up hi; next_down lo; lo; next_up lo].

(** Whether, for the problem [(L, P, x)], the float test and the test on
    exact values agree at every boundary answer, for both reactions. *)
Definition verdicts_agree (L P x : float) : bool :=
  match solve_beam L P x with
  | Ok (ra, rb) =>
      forallb (fun u => match is_correct_on_values u ra with
                        | Some b => Bool.eqb b (is_correct u ra)
                        | None => false
                        end) (boundary_answers ra)
      && forallb (fun u => match is_correct_on_values u rb with
                           | Some b => Bool.eqb b (is_correct u rb)
                           | None => false
                           end) (boundary_answers rb)
  | Raise _ => false
  end.

(** A check run over a sample of the problems the generator can produce:
    every [L] in [[5, 20]], every [x] in [[1, L - 1]], and the loads
    [P = 10, 23, 36, ..., 192] and [200]. *)
Definition for_sampled_quiz_problems (check : Z -> Z -> Z -> bool) : bool :=
  forallb (fun L =>
    forallb (fun P =>
      forallb (fun x => check L P x)
              (map Z.of_nat (seq 1 (Z.to_nat L - 1))))
      (map (fun k => (10 + 13 * Z.of_nat k)%Z) (seq 0 15) ++ [200%Z]))
    (map Z.of_nat (seq 5 16)).

Definition of_Z (z : Z) : float := PrimFloat.of_uint63 (Uint63.of_Z z).

End Binary64.

(** ** Statics, as the specification words it

    The quantities the claims compare the code with: the total downward
    load, the moment of the loads about a point, and the loads that lie
    strictly left of a cut. *)

Definition total_load (ls : list Load.t) : Q :=
  fold_right (fun l acc => Load.P l + acc) 0 ls.

(** Sum of [P * (x - a)]: the moment of the loads about the point [a]. *)
Definition load_moment_about (a : Q) (ls : list Load.t) : Q :=
  fold_right (fun l acc => Load.P l * (Load.x l - a) + acc) 0 ls.

(** Moment about [a] of the whole free body: both reactions (upward, at [0]
    and at [L]) against the loads (downward). *)
Definition moment_sum_about (a L ra rb : Q) (ls : list Load.t) : Q :=
  ra * (0 - a) + rb * (L - a) - load_moment_about a ls.

Definition left_of (x : Q) (ls : list Load.t) : list Load.t :=
  List.filter (fun l => Qltb (Load.x l) x) ls.

(** Sum of [P * (x - xp)]: the moment about the cut at [x] of loads taken
    with their arm to the cut. *)
Definition arm_moment (x : Q) (ls : list Load.t) : Q :=
  fold_right (fun l acc => Load.P l * (x - Load.x l) + acc) 0 ls.

(** The resultant of a UDL: force [w * (e - s)] at the centroid
    [(s + e) / 2], as a point load. *)
Definition udl_resultant (u : UDL.t) : Load.t :=
  Load.mk "point" (UDL.w u * (UDL.end_ u - UDL.start u))
          ((UDL.start u + UDL.end_ u) / 2).

Definition as_load (pl : PointLoad.t) : Load.t :=
  Load.mk "point" (PointLoad.P pl) (PointLoad.x pl).

(** Moment about [a] of a UDL taken as what it is, a load density [w] on
    [[s, e]]: the integral of [w * (t - a)] over the segment. *)
Definition udl_moment_about (a : Q) (u : UDL.t) : Q :=
  UDL.w u * ((UDL.end_ u - a) * (UDL.end_ u - a)
             - (UDL.start u - a) * (UDL.start u - a)) / 2.

Definition udl_total (u : UDL.t) : Q := UDL.w u * (UDL.end_ u - UDL.start u).

(** The part of a UDL that a cut at [x] has passed: its length, the force
    on it, and the moment of that force about the cut. *)
Definition udl_covered (u : UDL.t) (x : Q) : Q :=
  Qmax 0 (Qmin x (UDL.end_ u) - UDL.start u).

Definition udl_shear (u : UDL.t) (x : Q) : Q := UDL.w u * udl_covered u x.

Definition udl_moment (u : UDL.t) (x : Q) : Q :=
  UDL.w u * udl_covered u x * (x - (UDL.start u + udl_covered u x / 2)).

(** A UDL without net effect: zero intensity or zero length. *)
Definition degenerate (u : UDL.t) : Prop :=
  UDL.w u == 0 \/ UDL.start u == UDL.end_ u.

(** Equality up to [==] of what [solve_analysis] returns. *)
Definition analysis_eq (r s : Q * Q * list Q * list Q * list Q) : Prop :=
  let '(ra, rb, xs, Vs, Ms) := r in
  let '(ra', rb', xs', Vs', Ms') := s in
  ra == ra' /\ rb == rb' /\ Qs_eq xs xs' /\ Qs_eq Vs Vs' /\ Qs_eq Ms Ms'.

(** ** The rest of the pages

    What the pages do around the solvers: the call sequence of [src/app.py]
    on a beam with any loads, the numbers the figures are labelled with, the
    arrows of the Level 2 free-body diagram, and the sessions the quiz page
    can be in. *)

(** [ra, rb = beam.solve_reactions()] followed by
    [beam.calculate_internal_forces(ra, rb)]. *)
Definition simple_beam_analysis
  : method SimpleBeam.t (Q * Q * list Q * list Q * list Q) :=
  r <- SimpleBeam.solve_reactions ;;
  let '(ra, rb) := r in
  f <- SimpleBeam.calculate_internal_forces ra rb ;;
  let '(x_vals, V_vals, M_vals) := f in
  ret (ra, rb, x_vals, V_vals, M_vals).

(** The labels of [plot_analysis]: [max_v = max(map(abs, V_vals))] and
    [max_m = max(M_vals)]. *)
Definition plot_analysis_labels (V_vals M_vals : list Q) : option Q * option Q :=
  (py_max (map Qabs V_vals), py_max M_vals).

(** Python's [int(q)] on a float: truncation towards zero. *)
Definition py_int (q : Q) : Z := Z.quot (Qnum q) (Zpos (Qden q)).

(** The free-body diagram of [plot_level2]: where the red arrow of the
    point load stands, if it is drawn, and where the blue arrows of the UDL
    stand.  [np.linspace] refuses a negative number of samples with a
    [ValueError], rendered here as [None]. *)
Definition point_arrow (pl : PointLoad.t) : option Q :=
  if Qgtb (PointLoad.P pl) 0 then Some (PointLoad.x pl) else None.

Definition udl_arrows (u : UDL.t) : option (list Q) :=
  if Qgtb (UDL.w u) 0 then
    let n := (py_int ((UDL.end_ u - UDL.start u) * 2) + 2)%Z in
    if (n <? 0)%Z then None
    else Some (linspace (UDL.start u) (UDL.end_ u) (Z.to_nat n))
  else Some [].

(** The point loads standing in [[x1, x2)]. *)
Definition between (x1 x2 : Q) (ls : list Load.t) : list Load.t :=
  List.filter (fun l => Qle_bool x1 (Load.x l) && Qltb (Load.x l) x2) ls.

(** The ranges of a quiz problem. *)
Definition exam_in_range (e : ExamData.t) : Prop :=
  (5 <= ExamData.L e /\ ExamData.L e <= 20) /\
  (10 <= ExamData.P e /\ ExamData.P e <= 200) /\
  (1 <= ExamData.x e /\ ExamData.x e <= ExamData.L e - 1).

Section Sessions.

Variable rng : Type.
Variable randint : Z -> Z -> rng -> Z * rng.

(** The sessions of the quiz page: a fresh one, and what a run of the page
    or a click on the generate button makes of a session. *)
Inductive reachable : gmap string ExamData.t -> Prop :=
| reach_fresh : reachable ∅
| reach_run (st : gmap string ExamData.t) :
    reachable st -> reachable (init_session st)
| reach_generate (st : gmap string ExamData.t) (g : rng) :
    reachable st -> reachable (fst (on_generate rng randint st g)).

End Sessions.

(** * Properties *)

(** ** Comparisons and division *)

Lemma Qgtb_lt (a b : Q) : Qgtb a b = true <-> b < a.
Proof.
  unfold Qgtb. rewrite negb_true_iff.
  split.
  - intros H. apply Qnot_le_lt. intros Hle.
    apply Qle_bool_iff in Hle. congruence.
  - intros H. destruct (Qle_bool a b) eqn:E; [|reflexivity].
    apply Qle_bool_iff in E. lra.
Qed.

Lemma Qgtb_le (a b : Q) : Qgtb a b = false <-> a <= b.
Proof.
  unfold Qgtb. rewrite negb_false_iff. apply Qle_bool_iff.
Qed.

Lemma Qltb_lt (a b : Q) : Qltb a b = true <-> a < b.
Proof. apply (Qgtb_lt b a). Qed.

Lemma Qltb_le (a b : Q) : Qltb a b = false <-> b <= a.
Proof. apply (Qgtb_le b a). Qed.

Lemma py_div_zero (a b : Q) : b == 0 -> py_div a b = Raise ZeroDivisionError.
Proof.
  intros H. unfold py_div.
  apply Qeq_bool_iff in H. now rewrite H.
Qed.

Lemma py_div_nonzero (a b : Q) : ~ b == 0 -> py_div a b = Ok (a / b).
Proof.
  intros H. unfold py_div.
  destruct (Qeq_bool b 0) eqn:E; [|reflexivity].
  apply Qeq_bool_iff in E. contradiction.
Qed.

Lemma py_min_Qmin (a b : Q) : py_min a b == Qmin a b.
Proof.
  unfold py_min. destruct (Qltb b a) eqn:E.
  - apply Qltb_lt in E. symmetry. apply Q.min_r. lra.
  - apply Qltb_le in E. symmetry. apply Q.min_l. exact E.
Qed.

(** ** The accumulators of [solve_reactions] *)

Lemma reactions_fold (ls : list Load.t) (m t : Q) :
  fst (fold_left SimpleBeam.reactions_step ls (m, t))
    == m + load_moment_about 0 ls /\
  snd (fold_left SimpleBeam.reactions_step ls (m, t))
    == t + total_load ls.
Proof.
  revert m t. induction ls as [|l ls IH]; intros m t; simpl.
  - split; ring.
  - destruct (IH (m + Load.P l * Load.x l) (t + Load.P l)) as [Hm Ht].
    rewrite Hm, Ht. split; ring.
Qed.

Lemma solve_reactions_run (b : SimpleBeam.t) :
  run SimpleBeam.solve_reactions b =
  match py_div (fst (fold_left SimpleBeam.reactions_step (SimpleBeam.loads b) (0, 0)))
               (SimpleBeam.length b) with
  | Ok rb =>
      Ok (snd (fold_left SimpleBeam.reactions_step (SimpleBeam.loads b) (0, 0)) - rb, rb)
  | Raise e => Raise e
  end.
Proof.
  unfold run, SimpleBeam.solve_reactions, bind, get, lift, ret. simpl.
  destruct (fold_left _ _ _) as [m t]. simpl.
  destruct (py_div m (SimpleBeam.length b)); reflexivity.
Qed.

Lemma load_moment_shift (a : Q) (ls : list Load.t) :
  load_moment_about a ls == load_moment_about 0 ls - a * total_load ls.
Proof.
  induction ls as [|l ls IH]; simpl.
  - ring.
  - rewrite IH. ring.
Qed.

Lemma solve_analysis_run (b : BeamLevel2.t) :
  run BeamLevel2.solve_analysis b =
  let pl := BeamLevel2.point_load b in
  let u := BeamLevel2.udl b in
  match py_div (PointLoad.P pl * PointLoad.x pl
                + udl_total u * ((UDL.start u + UDL.end_ u) / 2))
               (BeamLevel2.length b) with
  | Ok rb =>
      let ra := PointLoad.P pl + udl_total u - rb in
      let xs := linspace 0 (BeamLevel2.length b) 500 in
      Ok (ra, rb, xs,
          map (fun x => fst (BeamLevel2.section pl u ra x)) xs,
          map (fun x => snd (BeamLevel2.section pl u ra x)) xs)
  | Raise e => Raise e
  end.
Proof.
  unfold run, BeamLevel2.solve_analysis, bind, get, lift, ret, udl_total.
  cbv zeta. cbn [fst snd].
  destruct (py_div _ _); reflexivity.
Qed.

Lemma solve_reactions_raised (b : SimpleBeam.t) :
  raised (run SimpleBeam.solve_reactions b) =
  if Qeq_bool (SimpleBeam.length b) 0 then Some ZeroDivisionError else None.
Proof.
  rewrite solve_reactions_run. unfold py_div.
  destruct (Qeq_bool (SimpleBeam.length b) 0); reflexivity.
Qed.

Lemma solve_analysis_raised (b : BeamLevel2.t) :
  raised (run BeamLevel2.solve_analysis b) =
  if Qeq_bool (BeamLevel2.length b) 0 then Some ZeroDivisionError else None.
Proof.
  rewrite solve_analysis_run. cbv zeta. unfold py_div.
  destruct (Qeq_bool (BeamLevel2.length b) 0); reflexivity.
Qed.

(** ** C1: the span is not validated *)

(** C1, refuted as stated: a beam of span [-10] with [P = 100] at [x = 5]
    has [L <= 0], yet [solve_reactions] and [solve_beam] return the
    reactions [(150, -50)] instead of failing with [InvalidGeometry]. *)
Lemma negative_span_is_solved :
  let b := SimpleBeam.mk (-10) [Load.mk "point" 100 5] in
  SimpleBeam.length b <= 0 /\
  run SimpleBeam.solve_reactions b <> Raise InvalidGeometry /\
  result_eq pair_eq (run SimpleBeam.solve_reactions b) (Ok (150, -50)) /\
  result_eq pair_eq (solve_beam (-10) 100 5) (Ok (150, -50)).
Proof.
  cbv zeta. split; [|split; [|split]].
  - vm_compute. discriminate.
  - vm_compute. discriminate.
  - vm_compute. split; reflexivity.
  - vm_compute. split; reflexivity.
Qed.

(** On doubles as well: a negative span is solved, a zero span raises
    [ZeroDivisionError]. *)
Example binary64_spans :
  Binary64.solve_beam (-10) 100 5 = Ok (150, -50)%float /\
  Binary64.solve_beam 0 100 5 = Raise ZeroDivisionError.
Proof. split; vm_compute; reflexivity. Qed.

(** C1, amended: no solver checks the span.  Each of [solve_reactions],
    [solve_analysis] and [solve_beam] raises exactly when [L] is zero, the
    exception is then Python's [ZeroDivisionError] (never
    [InvalidGeometry]), and for any other [L], negative ones included, it
    returns the reactions obtained by dividing by [L]:
    [Rb = (sum of P*x) / L] and [Ra = (sum of P) - Rb] for
    [solve_reactions]; [Rb = (P*xp + F*c) / L] and [Ra = (P + F) - Rb],
    with the profile computed from them, for [solve_analysis];
    [Rb = P*x/L] and [Ra = P - Rb] for [solve_beam]. *)
Theorem span_is_not_validated :
  (forall b : SimpleBeam.t,
      raised (run SimpleBeam.solve_reactions b) =
      (if Qeq_bool (SimpleBeam.length b) 0 then Some ZeroDivisionError else None) /\
      result_eq pair_eq
        (run SimpleBeam.solve_reactions b)
        (if Qeq_bool (SimpleBeam.length b) 0 then Raise ZeroDivisionError
         else Ok (total_load (SimpleBeam.loads b)
                  - load_moment_about 0 (SimpleBeam.loads b) / SimpleBeam.length b,
                  load_moment_about 0 (SimpleBeam.loads b) / SimpleBeam.length b))) /\
  (forall b : BeamLevel2.t,
      raised (run BeamLevel2.solve_analysis b) =
      (if Qeq_bool (BeamLevel2.length b) 0 then Some ZeroDivisionError else None) /\
      run BeamLevel2.solve_analysis b =
      (if Qeq_bool (BeamLevel2.length b) 0 then Raise ZeroDivisionError
       else
         let pl := BeamLevel2.point_load b in
         let u := BeamLevel2.udl b in
         let F := UDL.w u * (UDL.end_ u - UDL.start u) in
         let c := (UDL.start u + UDL.end_ u) / 2 in
         let rb := (PointLoad.P pl * PointLoad.x pl + F * c) / BeamLevel2.length b in
         let ra := PointLoad.P pl + F - rb in
         let xs := linspace 0 (BeamLevel2.length b) 500 in
         Ok (ra, rb, xs,
             map (fun x => fst (BeamLevel2.section pl u ra x)) xs,
             map (fun x => snd (BeamLevel2.section pl u ra x)) xs))) /\
  (forall L P x : Q,
      solve_beam L P x =
      if Qeq_bool L 0 then Raise ZeroDivisionError
      else Ok (P - P * x / L, P * x / L)).
Proof.
  split; [|split].
  - intros b. split; [apply solve_reactions_raised|].
    rewrite solve_reactions_run. unfold py_div.
    destruct (Qeq_bool (SimpleBeam.length b) 0); [reflexivity|].
    destruct (reactions_fold (SimpleBeam.loads b) 0 0) as [Hm Ht].
    unfold result_eq, pair_eq. cbn [fst snd].
    rewrite Hm, Ht. unfold Qdiv. split; ring.
  - intros b. split; [apply solve_analysis_raised|].
    rewrite solve_analysis_run. cbv zeta. unfold py_div, udl_total.
    destruct (Qeq_bool (BeamLevel2.length b) 0); reflexivity.
  - intros L P x. unfold solve_beam, py_div.
    destruct (Qeq_bool L 0); reflexivity.
Qed.

(** ** C2: equilibrium of the reactions *)

(** C2: on a span [L > 0] the solvers return reactions with
    [Ra + Rb] equal to the total downward load and with zero moment sum
    about every point [a]; for [SimpleBeam] over any list of point loads,
    for [BeamLevel2] over its point load and its UDL. *)
Theorem reactions_in_equilibrium
  (L : Q) (ls : list Load.t) (pl : PointLoad.t) (u : UDL.t) (HL : 0 < L) :
  (exists ra rb,
      run SimpleBeam.solve_reactions (SimpleBeam.mk L ls) = Ok (ra, rb) /\
      ra + rb == total_load ls /\
      forall a, moment_sum_about a L ra rb ls == 0) /\
  (exists ra rb xs Vs Ms,
      run BeamLevel2.solve_analysis (BeamLevel2.mk L pl u)
        = Ok (ra, rb, xs, Vs, Ms) /\
      ra + rb == PointLoad.P pl + udl_total u /\
      forall a,
        moment_sum_about a L ra rb [as_load pl] - udl_moment_about a u == 0).
Proof.
  assert (HL0 : ~ L == 0) by lra.
  split.
  - rewrite solve_reactions_run. cbn [SimpleBeam.length SimpleBeam.loads].
    rewrite (py_div_nonzero _ _ HL0).
    destruct (reactions_fold ls 0 0) as [Hm Ht].
    do 2 eexists. split; [reflexivity|].
    split.
    + rewrite Ht. ring.
    + intros a. unfold moment_sum_about.
      rewrite load_moment_shift, Hm, Ht. field. exact HL0.
  - rewrite solve_analysis_run. cbv zeta.
    cbn [BeamLevel2.length BeamLevel2.point_load BeamLevel2.udl].
    rewrite (py_div_nonzero _ _ HL0).
    do 5 eexists. split; [reflexivity|].
    split.
    + ring.
    + intros a. unfold moment_sum_about, udl_moment_about, udl_total. simpl.
      field. exact HL0.
Qed.

Lemma reactions_in_equilibrium_witness :
  0 < 10 /\
  (exists ra rb,
      run SimpleBeam.solve_reactions
          (SimpleBeam.mk 10 [Load.mk "point" 100 5; Load.mk "point" 30 2])
        = Ok (ra, rb) /\
      ra + rb == total_load [Load.mk "point" 100 5; Load.mk "point" 30 2] /\
      forall a,
        moment_sum_about a 10 ra rb
          [Load.mk "point" 100 5; Load.mk "point" 30 2] == 0).
Proof.
  split; [reflexivity|].
  apply (reactions_in_equilibrium 10
           [Load.mk "point" 100 5; Load.mk "point" 30 2]
           (PointLoad.mk 50 5) (UDL.mk 10 0 10)).
  reflexivity.
Defined.

(** ** C4: the cut and the point loads *)

Lemma cut_fold (x : Q) (ls : list Load.t) (V M : Q) :
  fst (fold_left (SimpleBeam.cut_step x) ls (V, M))
    == V - total_load (left_of x ls) /\
  snd (fold_left (SimpleBeam.cut_step x) ls (V, M))
    == M - arm_moment x (left_of x ls).
Proof.
  unfold left_of.
  revert V M. induction ls as [|l ls IH]; intros V M; simpl.
  - split; ring.
  - unfold Qgtb, Qltb in *.
    destruct (Qle_bool x (Load.x l)); simpl.
    + apply IH.
    + destruct (IH (V - Load.P l) (M - Load.P l * (x - Load.x l))) as [HV HM].
      rewrite HV, HM. split; ring.
Qed.



Lemma udl_covered_run (u : UDL.t) (x : Q) :
  let cover_len := py_min x (UDL.end_ u) - UDL.start u in
  (Qgtb x (UDL.start u) && Qgtb cover_len 0 = true ->
   udl_covered u x == cover_len) /\
  (Qgtb x (UDL.start u) && Qgtb cover_len 0 = false ->
   udl_covered u x == 0).
Proof.
  cbv zeta. unfold udl_covered.
  pose proof (py_min_Qmin x (UDL.end_ u)) as Hmin.
  split; intros H.
  - apply andb_true_iff in H. destruct H as [_ H]. apply Qgtb_lt in H.
    rewrite <- Hmin. apply Q.max_r. lra.
  - apply Q.max_l. apply andb_false_iff in H. destruct H as [H|H].
    + apply Qgtb_le in H.
      pose proof (Q.le_min_l x (UDL.end_ u)). lra.
    + apply Qgtb_le in H. rewrite <- Hmin. lra.
Qed.

Lemma level2_section_split (pl : PointLoad.t) (u : UDL.t) (ra x : Q) :
  pair_eq (BeamLevel2.section pl u ra x)
          (fst (SimpleBeam.section [as_load pl] ra x) - udl_shear u x,
           snd (SimpleBeam.section [as_load pl] ra x) - udl_moment u x).
Proof.
  destruct (udl_covered_run u x) as [Hin Hout]. cbv zeta in Hin, Hout.
  unfold BeamLevel2.section, SimpleBeam.section, pair_eq, udl_shear, udl_moment.
  cbn [fold_left SimpleBeam.cut_step as_load Load.x Load.P].
  destruct (Qgtb x (PointLoad.x pl));
    destruct (Qgtb x (UDL.start u)); cbn [andb] in Hin, Hout;
    try destruct (Qgtb (py_min x (UDL.end_ u) - UDL.start u) 0);
    cbn [fst snd];
    try (rewrite (Hin eq_refl); split; ring);
    rewrite (Hout eq_refl); split; ring.
Qed.


(** ** C5: the UDL in the reactions *)

Lemma udl_resultant_moment (u : UDL.t) :
  Load.P (udl_resultant u) * Load.x (udl_resultant u) == udl_moment_about 0 u.
Proof. unfold udl_resultant, udl_moment_about. simpl. field. Qed.

(** C5: for a UDL [(w, s, e)] with [0 <= s <= e <= L] and [L > 0],
    [solve_analysis] returns [Rb = (P*xp + F*c) / L] and
    [Ra = (P + F) - Rb] with [F = w*(e - s)] and [c = (s + e)/2]: the same
    reactions as [SimpleBeam.solve_reactions] finds for the two point loads
    [P] at [xp] and [F] at [c]; and [F*c] is the moment of the distributed
    load about the left support. *)
Theorem udl_enters_as_resultant
  (L : Q) (pl : PointLoad.t) (w s e : Q)
  (HL : 0 < L) (Hs : 0 <= s) (Hse : s <= e) (He : e <= L) :
  let u := UDL.mk w s e in
  let F := w * (e - s) in
  let c := (s + e) / 2 in
  exists ra rb xs Vs Ms,
    run BeamLevel2.solve_analysis (BeamLevel2.mk L pl u)
      = Ok (ra, rb, xs, Vs, Ms) /\
    rb == (PointLoad.P pl * PointLoad.x pl + F * c) / L /\
    ra == (PointLoad.P pl + F) - rb /\
    result_eq pair_eq
      (run SimpleBeam.solve_reactions
           (SimpleBeam.mk L [as_load pl; Load.mk "point" F c]))
      (Ok (ra, rb)) /\
    F * c == udl_moment_about 0 u.
Proof.
  cbv zeta. assert (HL0 : ~ L == 0) by lra.
  rewrite solve_analysis_run. cbv zeta.
  cbn [BeamLevel2.length BeamLevel2.point_load BeamLevel2.udl].
  rewrite (py_div_nonzero _ _ HL0).
  do 5 eexists. split; [reflexivity|].
  unfold udl_total. cbn [UDL.w UDL.start UDL.end_].
  split; [reflexivity|]. split; [reflexivity|]. split.
  - rewrite solve_reactions_run. cbn [SimpleBeam.length SimpleBeam.loads].
    rewrite (py_div_nonzero _ _ HL0).
    unfold result_eq, pair_eq. simpl. split; field; exact HL0.
  - unfold udl_moment_about. simpl. field.
Qed.

Lemma udl_enters_as_resultant_witness :
  exists ra rb xs Vs Ms,
    run BeamLevel2.solve_analysis
        (BeamLevel2.mk 10 (PointLoad.mk 50 5) (UDL.mk 10 2 6))
      = Ok (ra, rb, xs, Vs, Ms) /\
    rb == (50 * 5 + 10 * (6 - 2) * ((2 + 6) / 2)) / 10 /\
    ra == (50 + 10 * (6 - 2)) - rb /\
    result_eq pair_eq
      (run SimpleBeam.solve_reactions
           (SimpleBeam.mk 10 [as_load (PointLoad.mk 50 5);
                              Load.mk "point" (10 * (6 - 2)) ((2 + 6) / 2)]))
      (Ok (ra, rb)) /\
    10 * (6 - 2) * ((2 + 6) / 2) == udl_moment_about 0 (UDL.mk 10 2 6).
Proof.
  apply (udl_enters_as_resultant 10 (PointLoad.mk 50 5) 10 2 6);
    vm_compute; first [reflexivity | discriminate].
Defined.

(** ** C6: a degenerate UDL *)

Lemma app_page_run (L P x_p : Q) :
  app_page L P x_p =
  match py_div (0 + P * x_p) L with
  | Ok rb =>
      let ra := 0 + P - rb in
      let xs := linspace 0 L 500 in
      Ok (ra, rb, xs,
          map (fun x => fst (SimpleBeam.section [Load.mk "point" P x_p] ra x)) xs,
          map (fun x => snd (SimpleBeam.section [Load.mk "point" P x_p] ra x)) xs)
  | Raise e => Raise e
  end.
Proof.
  cbv beta iota zeta delta
    [app_page run bind SimpleBeam.add_point_load SimpleBeam.solve_reactions
     SimpleBeam.calculate_internal_forces SimpleBeam.__init__ get put lift ret
     fst snd SimpleBeam.length SimpleBeam.loads app fold_left
     SimpleBeam.reactions_step Load.P Load.x].
  destruct (py_div (0 + P * x_p) L); reflexivity.
Qed.

Lemma level2_page_run (L P x_p w w_start w_end : Q) :
  level2_page L P x_p w w_start w_end =
  run BeamLevel2.solve_analysis
      (BeamLevel2.mk L (PointLoad.mk P x_p) (UDL.mk w w_start w_end)).
Proof. reflexivity. Qed.

Lemma Forall2_map_both {A B} (R : B -> B -> Prop) (f g : A -> B) (l : list A) :
  (forall a, R (f a) (g a)) -> Forall2 R (map f l) (map g l).
Proof.
  intros H. induction l as [|a l IH]; simpl; constructor; auto.
Qed.

Lemma Qs_eq_refl (l : list Q) : Qs_eq l l.
Proof. induction l; constructor; [reflexivity | assumption]. Qed.

Lemma degenerate_total (u : UDL.t) : degenerate u -> udl_total u == 0.
Proof.
  unfold degenerate, udl_total. intros [H|H]; rewrite H; ring.
Qed.

Lemma degenerate_covered (u : UDL.t) (x : Q) :
  degenerate u -> UDL.w u * udl_covered u x == 0.
Proof.
  unfold degenerate. intros [H|H].
  - rewrite H. ring.
  - assert (Hc : udl_covered u x == 0).
    { unfold udl_covered. apply Q.max_l.
      pose proof (Q.le_min_r x (UDL.end_ u)). lra. }
    rewrite Hc. ring.
Qed.

Lemma degenerate_section (pl : PointLoad.t) (u : UDL.t) (ra ra' x : Q) :
  degenerate u -> ra == ra' ->
  pair_eq (BeamLevel2.section pl u ra x)
          (SimpleBeam.section [as_load pl] ra' x).
Proof.
  intros Hdeg Hra.
  destruct (level2_section_split pl u ra x) as [HV HM].
  unfold pair_eq. rewrite HV, HM. cbn [fst snd].
  unfold udl_shear, udl_moment.
  rewrite (degenerate_covered u x Hdeg).
  unfold SimpleBeam.section.
  destruct (cut_fold x [as_load pl] ra (ra * x)) as [H1 H2].
  destruct (cut_fold x [as_load pl] ra' (ra' * x)) as [H3 H4].
  rewrite H1, H2, H3, H4, Hra. split; ring.
Qed.

Lemma degenerate_analysis (L : Q) (pl : PointLoad.t) (u : UDL.t) :
  degenerate u ->
  result_eq analysis_eq
    (run BeamLevel2.solve_analysis (BeamLevel2.mk L pl u))
    (app_page L (PointLoad.P pl) (PointLoad.x pl)).
Proof.
  intros Hdeg. rewrite solve_analysis_run, app_page_run. cbv zeta.
  cbn [BeamLevel2.length BeamLevel2.point_load BeamLevel2.udl].
  unfold py_div. destruct (Qeq_bool L 0); [reflexivity|].
  pose proof (degenerate_total u Hdeg) as Ht.
  assert (Hrb : (PointLoad.P pl * PointLoad.x pl
                 + udl_total u * ((UDL.start u + UDL.end_ u) / 2)) / L
                == (0 + PointLoad.P pl * PointLoad.x pl) / L).
  { rewrite Ht. apply Qmult_comp; [ring | reflexivity]. }
  assert (Hra : PointLoad.P pl + udl_total u
                - (PointLoad.P pl * PointLoad.x pl
                   + udl_total u * ((UDL.start u + UDL.end_ u) / 2)) / L
                == 0 + PointLoad.P pl
                   - (0 + PointLoad.P pl * PointLoad.x pl) / L).
  { rewrite Hrb, Ht. ring. }
  unfold result_eq, analysis_eq.
  split; [exact Hra|]. split; [exact Hrb|].
  split; [apply Qs_eq_refl|].
  split; apply Forall2_map_both; intros a;
    apply (degenerate_section pl u _ _ a Hdeg Hra).
Qed.

Lemma analysis_eq_sym r s : analysis_eq r s -> analysis_eq s r.
Proof.
  destruct r as [[[[ra rb] xs] Vs] Ms], s as [[[[ra' rb'] xs'] Vs'] Ms'].
  unfold analysis_eq, Qs_eq. intros (H1 & H2 & H3 & H4 & H5).
  repeat split; try (symmetry; assumption);
    (eapply Forall2_flip, Forall2_impl; [eassumption|]);
    intros ? ? Hq; symmetry; exact Hq.
Qed.

Lemma analysis_eq_trans r s t :
  analysis_eq r s -> analysis_eq s t -> analysis_eq r t.
Proof.
  destruct r as [[[[ra rb] xs] Vs] Ms], s as [[[[ra' rb'] xs'] Vs'] Ms'],
           t as [[[[ra2 rb2] xs2] Vs2] Ms2].
  unfold analysis_eq, Qs_eq.
  intros (H1 & H2 & H3 & H4 & H5) (G1 & G2 & G3 & G4 & G5).
  repeat split; try (etransitivity; eassumption);
    (eapply Forall2_transitive; [|eassumption|eassumption]);
    intros ? ? ? Ha Hb; rewrite Ha; exact Hb.
Qed.

(** C6: when the UDL is degenerate ([w = 0] or [start = end]) the
    reactions and the whole profile of [solve_analysis] equal those of the
    same beam with the UDL removed, and those of [SimpleBeam] with the one
    point load; the only division that can fail is the one by [L], so on
    every span [L <> 0] the analysis returns. *)
Theorem degenerate_udl_is_no_load
  (L : Q) (pl : PointLoad.t) (w s e : Q)
  (Hdeg : w == 0 \/ s == e) :
  let b := BeamLevel2.mk L pl (UDL.mk w s e) in
  result_eq analysis_eq
    (run BeamLevel2.solve_analysis b)
    (run BeamLevel2.solve_analysis (BeamLevel2.mk L pl (UDL.mk 0 0 0))) /\
  result_eq analysis_eq
    (run BeamLevel2.solve_analysis b)
    (app_page L (PointLoad.P pl) (PointLoad.x pl)) /\
  raised (run BeamLevel2.solve_analysis b)
    = (if Qeq_bool L 0 then Some ZeroDivisionError else None).
Proof.
  cbv zeta.
  assert (H1 : degenerate (UDL.mk w s e)) by exact Hdeg.
  assert (H0 : degenerate (UDL.mk 0 0 0)) by (left; reflexivity).
  pose proof (degenerate_analysis L pl _ H1) as A1.
  pose proof (degenerate_analysis L pl _ H0) as A0.
  split; [|split].
  - destruct (run BeamLevel2.solve_analysis (BeamLevel2.mk L pl (UDL.mk w s e)));
      destruct (run BeamLevel2.solve_analysis (BeamLevel2.mk L pl (UDL.mk 0 0 0)));
      destruct (app_page L (PointLoad.P pl) (PointLoad.x pl));
      simpl in *; try contradiction; try congruence.
    eapply analysis_eq_trans; [exact A1|]. apply analysis_eq_sym. exact A0.
  - exact A1.
  - apply solve_analysis_raised.
Qed.

Lemma degenerate_udl_is_no_load_witness :
  let b := BeamLevel2.mk 10 (PointLoad.mk 50 5) (UDL.mk 10 3 3) in
  result_eq analysis_eq
    (run BeamLevel2.solve_analysis b)
    (run BeamLevel2.solve_analysis
         (BeamLevel2.mk 10 (PointLoad.mk 50 5) (UDL.mk 0 0 0))) /\
  result_eq analysis_eq (run BeamLevel2.solve_analysis b) (app_page 10 50 5) /\
  raised (run BeamLevel2.solve_analysis b) = None.
Proof.
  apply (degenerate_udl_is_no_load 10 (PointLoad.mk 50 5) 10 3 3).
  right. reflexivity.
Defined.

(** ** C7: the load at midspan *)

Lemma midspan_moment_bound (x : Q) :
  snd (answer_section 100 5 50 x) <= 250.
Proof.
  unfold answer_section.
  destruct (Qgtb x 5) eqn:E; cbn [snd].
  - apply Qgtb_lt in E. lra.
  - apply Qgtb_le in E. lra.
Qed.

(** C7, refuted as stated: with [L = 10], [P = 100], [x = 5] no sample of
    the 500-point profile lies at [x = 5] and every sampled moment is below
    [250]; the maximum of the profile, in [plot_answer] and in [SimpleBeam]
    alike, is [124500/499] (about 249.499). *)
Lemma sampled_moment_stays_below_250 :
  let f := plot_answer 10 100 5 50 50 in
  forallb (fun x => negb (Qeq_bool x 5)) (x_vals f) = true /\
  forallb (fun M => Qltb M 250) (M_vals f) = true /\
  option_map Qred (max_M f) = Some (124500 # 499) /\
  match app_page 10 100 5 with
  | Ok (_, _, xs, _, Ms) =>
      forallb (fun x => negb (Qeq_bool x 5)) xs
      && forallb (fun M => Qltb M 250) Ms
      && match py_max Ms with
         | Some m => Qeq_bool m (124500 # 499)
         | None => false
         end
  | Raise _ => false
  end = true.
Proof.
  cbv zeta. repeat split; vm_compute; reflexivity.
Qed.

(** C7, amended: for [L = 10], [P = 100], [x = 5] the solver returns
    [Ra = 50] and [Rb = 50]; in the profile the shear is [50] at the samples
    0..249 and [-50] at the samples 250..499, which straddle [x = 5]
    (samples 249 and 250 lie at [2490/499 < 5 < 2500/499]); the section
    formula gives [M = 250] for a cut at [x = 5] and [M <= 250] for every
    cut, while the sampled maximum is [124500/499], reached at the samples
    249 and 250. *)
Theorem midspan_load_example :
  result_eq pair_eq (solve_beam 10 100 5) (Ok (50, 50)) /\
  (exists ra rb xs Vs Ms,
      app_page 10 100 5 = Ok (ra, rb, xs, Vs, Ms) /\
      ra == 50 /\ rb == 50 /\
      map Qred Vs = repeat 50 250 ++ repeat (-50) 250 /\
      Qred (nth 249 xs 0) = 2490 # 499 /\
      Qred (nth 250 xs 0) = 2500 # 499 /\
      Qred (nth 249 Ms 0) = 124500 # 499 /\
      Qred (nth 250 Ms 0) = 124500 # 499 /\
      option_map Qred (py_max Ms) = Some (124500 # 499)) /\
  (let f := plot_answer 10 100 5 50 50 in
   map Qred (V_vals f) = repeat 50 250 ++ repeat (-50) 250 /\
   option_map Qred (max_V f) = Some 50 /\
   option_map Qred (max_M f) = Some (124500 # 499)) /\
  snd (answer_section 100 5 50 5) == 250 /\
  (forall x, snd (answer_section 100 5 50 x) <= 250) /\
  (forall x, snd (SimpleBeam.section [Load.mk "point" 100 5] 50 x) <= 250).
Proof.
  split; [vm_compute; split; reflexivity|].
  split.
  { do 5 eexists. split; [vm_compute; reflexivity|].
    repeat split; vm_compute; reflexivity. }
  split; [cbv zeta; repeat split; vm_compute; reflexivity|].
  split; [vm_compute; reflexivity|].
  split; intros x; apply midspan_moment_bound.
Qed.

(** ** C3: the tolerance of the quiz *)

Lemma on_submit_run (st : gmap string ExamData.t) (user_ra user_rb true_ra true_rb : Q) :
  solve_beam (ExamData.L (current_exam st)) (ExamData.P (current_exam st))
             (ExamData.x (current_exam st)) = Ok (true_ra, true_rb) ->
  exists v,
    on_submit st user_ra user_rb = Ok v /\
    is_correct_ra v = Qltb (Qabs (user_ra - true_ra)) tolerance /\
    is_correct_rb v = Qltb (Qabs (user_rb - true_rb)) tolerance /\
    fig_ans v =
      (if marked_correct v
       then Some (plot_answer (ExamData.L (current_exam st))
                              (ExamData.P (current_exam st))
                              (ExamData.x (current_exam st)) true_ra true_rb)
       else None).
Proof.
  intros H. unfold on_submit. cbv zeta. rewrite H.
  eexists. split; [reflexivity|]. unfold marked_correct. simpl.
  repeat split.
Qed.






(** The constant is the double: [tolerance] is the exact value of
    [0x1.999999999999ap-4]. *)
Example tolerance_is_the_double :
  option_map Qred (Binary64.value 0x1.999999999999ap-4) = Some tolerance.
Proof. vm_compute. reflexivity. Qed.

(** The verdicts on doubles: the truth of the initial problem is exactly
    [(50.0, 50.0)]; the answer [50.1] (the double [0x1.90ccccccccccdp+5],
    which is more than 0.1 above 50) and the answer [50.1001] are rejected,
    [50.09] is accepted. *)
Example binary64_verdicts :
  Binary64.solve_beam 10 100 5 = Ok (50, 50)%float /\
  Binary64.is_correct 0x1.90ccccccccccdp+5 50 = false /\
  Binary64.is_correct 0x1.90cd013a92a30p+5 50 = false /\
  Binary64.is_correct 0x1.90b851eb851ecp+5 50 = true.
Proof. repeat split; vm_compute; reflexivity. Qed.

(** The test on exact values gives these verdicts too, and the ones of
    two answers a tenth away in decimal: [12.6] against [12.5], and [10.0]
    against the left reaction of [L = 10], [P = 11], [x = 1], are accepted
    by the float test and by the test on their values. *)
Example verdicts_on_values :
  Binary64.is_correct_on_values 0x1.90ccccccccccdp+5 50 = Some false /\
  Binary64.is_correct_on_values 0x1.90cd013a92a30p+5 50 = Some false /\
  Binary64.is_correct_on_values 0x1.90b851eb851ecp+5 50 = Some true /\
  (Binary64.is_correct 0x1.9333333333333p+3 0x1.9p+3 = true /\
   Binary64.is_correct_on_values 0x1.9333333333333p+3 0x1.9p+3 = Some true) /\
  (exists ra rb,
      Binary64.solve_beam 10 11 1 = Ok (ra, rb) /\
      Binary64.is_correct 10 ra = true /\
      Binary64.is_correct_on_values 10 ra = Some true) /\
  (exists v,
      on_submit (<["exam_data" := ExamData.mk 10 11 1 true]> ∅) 10 (11 # 10)
        = Ok v /\
      is_correct_ra v = true /\ is_correct_rb v = true).
Proof.
  split; [vm_compute; reflexivity|].
  split; [vm_compute; reflexivity|].
  split; [vm_compute; reflexivity|].
  split; [split; vm_compute; reflexivity|].
  split.
  - do 2 eexists. split; [vm_compute; reflexivity|].
    split; vm_compute; reflexivity.
  - eexists. split; [vm_compute; reflexivity|]. split; reflexivity.
Qed.

(** On the sampled problems, at the doubles around [truth + 0.1] and
    [truth - 0.1] of both reactions, the float test of the handler and the
    test on exact values give the same verdict. *)
Example binary64_agrees_at_the_boundary :
  Binary64.for_sampled_quiz_problems
    (fun L P x =>
       Binary64.verdicts_agree (Binary64.of_Z L) (Binary64.of_Z P) (Binary64.of_Z x))
  = true.
Proof. vm_compute. reflexivity. Qed.

Example answer_off_by_1001_is_rejected :
  exists v,
    on_submit ∅ (501001 # 10000) (498999 # 10000) = Ok v /\
    is_correct_ra v = false /\ is_correct_rb v = false.
Proof. eexists. split; [vm_compute; reflexivity|]. split; reflexivity. Qed.

Example answer_off_by_0999_is_accepted :
  exists v,
    on_submit ∅ (500999 # 10000) (499001 # 10000) = Ok v /\
    is_correct_ra v = true /\ is_correct_rb v = true /\ fig_ans v <> None.
Proof.
  eexists. split; [vm_compute; reflexivity|].
  repeat split. discriminate.
Qed.

(** ** C8: the generated problem *)

Section GeneratorProperties.

Variable rng : Type.
Variable randint : Z -> Z -> rng -> Z * rng.

(** [random.randint(a, b)] returns an integer [N] with [a <= N <= b]. *)
Hypothesis randint_range :
  forall (a b : Z) (g : rng), (a <= b)%Z -> (a <= fst (randint a b g) <= b)%Z.

(** C8: the problem the generator installs has integer [L] in [[5, 20]],
    integer [P] in [[10, 200]] and integer [x] in [[1, L - 1]], so the load
    lies strictly between the supports; it is flagged as generated, it
    replaces the stored problem whatever that was, and nothing else in the
    session changes. *)
Theorem generated_problem_in_range (st : gmap string ExamData.t) (g : rng) :
  let st' := fst (on_generate rng randint st g) in
  exists zL zP zx : Z,
    st' !! "exam_data"
      = Some (ExamData.mk (inject_Z zL) (inject_Z zP * 1) (inject_Z zx * 1) true) /\
    current_exam st'
      = ExamData.mk (inject_Z zL) (inject_Z zP * 1) (inject_Z zx * 1) true /\
    (5 <= zL <= 20)%Z /\ (10 <= zP <= 200)%Z /\ (1 <= zx <= zL - 1)%Z /\
    ExamData.L (current_exam st') == inject_Z zL /\
    ExamData.P (current_exam st') == inject_Z zP /\
    ExamData.x (current_exam st') == inject_Z zx /\
    0 < ExamData.x (current_exam st') /\
    ExamData.x (current_exam st') < ExamData.L (current_exam st') /\
    (forall st0 : gmap string ExamData.t,
        fst (on_generate rng randint st0 g) !! "exam_data" = st' !! "exam_data") /\
    (forall k : string, k <> "exam_data" -> st' !! k = st !! k).
Proof.
  cbv zeta. unfold on_generate.
  pose proof (randint_range 5 20 g ltac:(lia)) as HL.
  destruct (randint 5 20 g) as [zL g1]. cbn [fst] in HL.
  pose proof (randint_range 10 200 g1 ltac:(lia)) as HP.
  destruct (randint 10 200 g1) as [zP g2]. cbn [fst] in HP.
  pose proof (randint_range 1 (zL - 1) g2 ltac:(lia)) as Hx.
  destruct (randint 1 (zL - 1) g2) as [zx g3]. cbn [fst] in *.
  exists zL, zP, zx.
  assert (Hcur : current_exam
                   (<["exam_data" := ExamData.mk (inject_Z zL) (inject_Z zP * 1)
                                                 (inject_Z zx * 1) true]> st)
                 = ExamData.mk (inject_Z zL) (inject_Z zP * 1) (inject_Z zx * 1) true).
  { unfold current_exam, init_session.
    rewrite lookup_insert_eq. rewrite lookup_insert_eq. reflexivity. }
  rewrite Hcur. cbn [ExamData.L ExamData.P ExamData.x].
  split; [apply lookup_insert_eq|]. split; [reflexivity|].
  split; [exact HL|]. split; [exact HP|]. split; [exact Hx|].
  split; [reflexivity|]. split; [ring|]. split; [ring|].
  split; [|split; [|split]].
  - rewrite Qmult_1_r. change 0 with (inject_Z 0). rewrite <- Zlt_Qlt. lia.
  - rewrite Qmult_1_r. rewrite <- Zlt_Qlt. lia.
  - intros st0. now rewrite !lookup_insert_eq.
  - intros k Hk. apply lookup_insert_ne. congruence.
Qed.

End GeneratorProperties.

(** A concrete generator: a linear congruential state, reduced into
    [[a, b]]. *)
Lemma lcg_randint_range (a b g : Z) :
  (a <= b)%Z ->
  (a <= fst (a + g mod (b - a + 1), (1103515245 * g + 12345) mod 2147483648) <= b)%Z.
Proof.
  intros H. cbn [fst].
  pose proof (Z.mod_pos_bound g (b - a + 1) ltac:(lia)). lia.
Qed.

Lemma generated_problem_in_range_witness :
  exists zL zP zx : Z,
    fst (on_generate Z
           (fun a b g => (a + g mod (b - a + 1),
                          (1103515245 * g + 12345) mod 2147483648))%Z
           ∅ 42%Z) !! "exam_data"
      = Some (ExamData.mk (inject_Z zL) (inject_Z zP * 1) (inject_Z zx * 1) true) /\
    (5 <= zL <= 20)%Z /\ (10 <= zP <= 200)%Z /\ (1 <= zx <= zL - 1)%Z.
Proof.
  destruct (generated_problem_in_range Z
              (fun a b g => (a + g mod (b - a + 1),
                             (1103515245 * g + 12345) mod 2147483648))%Z
              lcg_randint_range ∅ 42%Z)
    as (zL & zP & zx & H1 & _ & H2 & H3 & H4 & _).
  exists zL, zP, zx.
  split; [exact H1|]. split; [exact H2|]. split; [exact H3|exact H4].
Defined.

(** ** C9: the solvers only read the beam *)

Lemma run_twice {S A} (c : method S A) (s : S) :
  exec c s = s -> run (_ <- c ;; c) s = run c s.
Proof.
  unfold exec, run, bind. destruct (c s) as [r s'] eqn:E. cbn [snd].
  intros ->. destruct r; [now rewrite E | reflexivity].
Qed.

Lemma solve_reactions_exec (b : SimpleBeam.t) :
  exec SimpleBeam.solve_reactions b = b.
Proof.
  unfold exec, SimpleBeam.solve_reactions, bind, get, lift, ret.
  destruct (fold_left _ _ _) as [m t].
  destruct (py_div m (SimpleBeam.length b)); reflexivity.
Qed.

Lemma calculate_internal_forces_exec (ra rb : Q) (b : SimpleBeam.t) :
  exec (SimpleBeam.calculate_internal_forces ra rb) b = b.
Proof. reflexivity. Qed.

Lemma solve_analysis_exec (b : BeamLevel2.t) :
  exec BeamLevel2.solve_analysis b = b.
Proof.
  unfold exec, BeamLevel2.solve_analysis, bind, get, lift, ret. cbv zeta.
  destruct (py_div _ _); reflexivity.
Qed.

(** C9: [solve_reactions], [calculate_internal_forces] and
    [solve_analysis] hand the beam back as they found it, span and loads
    alike, whether they return or raise; and a second call on the same beam
    returns what the first call returned. *)
Theorem solvers_leave_the_beam_unchanged
  (b : SimpleBeam.t) (b2 : BeamLevel2.t) (ra rb : Q) :
  (exec SimpleBeam.solve_reactions b = b /\
   exec (SimpleBeam.calculate_internal_forces ra rb) b = b /\
   exec BeamLevel2.solve_analysis b2 = b2) /\
  (run (_ <- SimpleBeam.solve_reactions ;; SimpleBeam.solve_reactions) b
     = run SimpleBeam.solve_reactions b /\
   run (_ <- SimpleBeam.calculate_internal_forces ra rb ;;
        SimpleBeam.calculate_internal_forces ra rb) b
     = run (SimpleBeam.calculate_internal_forces ra rb) b /\
   run (_ <- BeamLevel2.solve_analysis ;; BeamLevel2.solve_analysis) b2
     = run BeamLevel2.solve_analysis b2) /\
  (run (_ <- SimpleBeam.solve_reactions ;;
        _ <- SimpleBeam.calculate_internal_forces ra rb ;;
        get) b
     = match run SimpleBeam.solve_reactions b with
       | Ok _ => Ok b
       | Raise e => Raise e
       end).
Proof.
  split; [|split].
  - split; [apply solve_reactions_exec|].
    split; [apply calculate_internal_forces_exec | apply solve_analysis_exec].
  - split; [apply run_twice, solve_reactions_exec|].
    split; [apply run_twice, calculate_internal_forces_exec|].
    apply run_twice, solve_analysis_exec.
  - pose proof (solve_reactions_exec b) as H.
    unfold exec, run, bind in *.
    destruct (SimpleBeam.solve_reactions b) as [r s]. cbn [snd] in H. subst s.
    destruct r; reflexivity.
Qed.

(** ** C10: [set_loads] overwrites *)

Lemma set_loads_exec (b : BeamLevel2.t) (P x_p w w_start w_end : Q) :
  exec (BeamLevel2.set_loads P x_p w w_start w_end) b
  = BeamLevel2.mk (BeamLevel2.length b) (PointLoad.mk P x_p)
                  (UDL.mk w w_start w_end).
Proof. reflexivity. Qed.

(** C10: a [BeamLevel2] has one point-load record and one UDL record;
    [set_loads] replaces both and keeps the span, so after two calls the
    beam is the one the second call alone would give, on this beam or on a
    fresh one of the same span, and [solve_analysis] depends on the
    arguments of the last call only. *)
Theorem set_loads_overwrites
  (b : BeamLevel2.t) (P1 x1 w1 s1 e1 P2 x2 w2 s2 e2 : Q) :
  exec (_ <- BeamLevel2.set_loads P1 x1 w1 s1 e1 ;;
        BeamLevel2.set_loads P2 x2 w2 s2 e2) b
    = BeamLevel2.mk (BeamLevel2.length b) (PointLoad.mk P2 x2) (UDL.mk w2 s2 e2) /\
  exec (_ <- BeamLevel2.set_loads P1 x1 w1 s1 e1 ;;
        BeamLevel2.set_loads P2 x2 w2 s2 e2) b
    = exec (BeamLevel2.set_loads P2 x2 w2 s2 e2) b /\
  run (_ <- BeamLevel2.set_loads P1 x1 w1 s1 e1 ;;
       _ <- BeamLevel2.set_loads P2 x2 w2 s2 e2 ;;
       BeamLevel2.solve_analysis) b
    = level2_page (BeamLevel2.length b) P2 x2 w2 s2 e2 /\
  exec (_ <- BeamLevel2.set_loads P1 x1 w1 s1 e1 ;;
        _ <- BeamLevel2.set_loads P2 x2 w2 s2 e2 ;;
        BeamLevel2.solve_analysis) b
    = BeamLevel2.mk (BeamLevel2.length b) (PointLoad.mk P2 x2) (UDL.mk w2 s2 e2).
Proof.
  split; [reflexivity|]. split; [reflexivity|]. split.
  - reflexivity.
  - change (exec BeamLevel2.solve_analysis
              (BeamLevel2.mk (BeamLevel2.length b) (PointLoad.mk P2 x2)
                             (UDL.mk w2 s2 e2)) = 
            BeamLevel2.mk (BeamLevel2.length b) (PointLoad.mk P2 x2)
                             (UDL.mk w2 s2 e2)).
    apply solve_analysis_exec.
Qed.

(** * Further properties of the pages *)

(** ** Sums over loads *)

Lemma total_load_app (l1 l2 : list Load.t) :
  total_load (l1 ++ l2) == total_load l1 + total_load l2.
Proof.
  induction l1 as [|l l1 IH]; simpl; [ring | rewrite IH; ring].
Qed.

Lemma load_moment_app (a : Q) (l1 l2 : list Load.t) :
  load_moment_about a (l1 ++ l2)
  == load_moment_about a l1 + load_moment_about a l2.
Proof.
  induction l1 as [|l l1 IH]; simpl; [ring | rewrite IH; ring].
Qed.

Lemma arm_moment_total (x : Q) (ls : list Load.t) :
  arm_moment x ls == x * total_load ls - load_moment_about 0 ls.
Proof.
  induction ls as [|l ls IH]; simpl; [ring | rewrite IH; ring].
Qed.

Lemma left_split (x1 x2 : Q) (ls : list Load.t) :
  x1 <= x2 ->
  total_load (left_of x2 ls)
  == total_load (left_of x1 ls) + total_load (between x1 x2 ls) /\
  load_moment_about 0 (left_of x2 ls)
  == load_moment_about 0 (left_of x1 ls) + load_moment_about 0 (between x1 x2 ls).
Proof.
  intros H12. unfold left_of, between.
  induction ls as [|l ls [IHt IHm]]; simpl.
  - split; ring.
  - destruct (Qltb (Load.x l) x2) eqn:E2;
      destruct (Qltb (Load.x l) x1) eqn:E1;
      destruct (Qle_bool x1 (Load.x l)) eqn:E0; simpl;
      try apply Qltb_lt in E2; try apply Qltb_le in E2;
      try apply Qltb_lt in E1; try apply Qltb_le in E1;
      try (apply Qle_bool_iff in E0);
      try (assert (~ x1 <= Load.x l)
             by (intros Hc; apply Qle_bool_iff in Hc; congruence));
      try lra;
      rewrite ?IHt, ?IHm; split; ring.
Qed.

(** ** Between two cuts *)

(** X1.  Shear between two cuts of [SimpleBeam]: for [x1 <= x2] the shear drops
    from the cut at [x1] to the cut at [x2] by the sum of the point loads
    standing in [[x1, x2)]; where no load stands in between, the shear is
    the same at both cuts. *)
Theorem shear_drops_by_loads_between
  (ls : list Load.t) (ra x1 x2 : Q) (H12 : x1 <= x2) :
  fst (SimpleBeam.section ls ra x1) - fst (SimpleBeam.section ls ra x2)
    == total_load (between x1 x2 ls) /\
  (between x1 x2 ls = [] ->
   fst (SimpleBeam.section ls ra x2) == fst (SimpleBeam.section ls ra x1)).
Proof.
  destruct (cut_fold x1 ls ra (ra * x1)) as [HV1 _].
  destruct (cut_fold x2 ls ra (ra * x2)) as [HV2 _].
  destruct (left_split x1 x2 ls H12) as [Ht _].
  unfold SimpleBeam.section. split.
  - rewrite HV1, HV2, Ht. ring.
  - intros Hnone. rewrite Hnone in Ht. simpl in Ht.
    rewrite HV1, HV2, Ht. ring.
Qed.

Lemma shear_drops_by_loads_between_witness :
  let ls := [Load.mk "point" 100 5; Load.mk "point" 30 2] in
  fst (SimpleBeam.section ls 74 4) - fst (SimpleBeam.section ls 74 6)
    == total_load (between 4 6 ls) /\
  (between 4 6 ls = [] ->
   fst (SimpleBeam.section ls 74 6) == fst (SimpleBeam.section ls 74 4)).
Proof.
  apply (shear_drops_by_loads_between
           [Load.mk "point" 100 5; Load.mk "point" 30 2] 74 4 6).
  vm_compute. discriminate.
Defined.

(** X2.  Moment between two cuts of [SimpleBeam]: for [x1 <= x2],
    [M(x2) = M(x1) + V(x1) * (x2 - x1)] minus the sum of [P * (x2 - xp)]
    over the loads standing in [[x1, x2)]; so the moment is linear, with
    slope the shear, wherever no load stands. *)
Theorem moment_grows_by_shear
  (ls : list Load.t) (ra x1 x2 : Q) (H12 : x1 <= x2) :
  snd (SimpleBeam.section ls ra x2)
    == snd (SimpleBeam.section ls ra x1)
       + fst (SimpleBeam.section ls ra x1) * (x2 - x1)
       - arm_moment x2 (between x1 x2 ls) /\
  (between x1 x2 ls = [] ->
   snd (SimpleBeam.section ls ra x2) - snd (SimpleBeam.section ls ra x1)
     == fst (SimpleBeam.section ls ra x2) * (x2 - x1)).
Proof.
  destruct (cut_fold x1 ls ra (ra * x1)) as [HV1 HM1].
  destruct (cut_fold x2 ls ra (ra * x2)) as [HV2 HM2].
  destruct (left_split x1 x2 ls H12) as [Ht Hm].
  unfold SimpleBeam.section. split.
  - rewrite HV1, HM1, HM2, !arm_moment_total, Ht, Hm. ring.
  - intros Hnone. rewrite Hnone in Ht, Hm. simpl in Ht, Hm.
    rewrite HV2, HM1, HM2, !arm_moment_total, Ht, Hm. ring.
Qed.

Lemma moment_grows_by_shear_witness :
  let ls := [Load.mk "point" 100 5; Load.mk "point" 30 2] in
  snd (SimpleBeam.section ls 74 6)
    == snd (SimpleBeam.section ls 74 4)
       + fst (SimpleBeam.section ls 74 4) * (6 - 4)
       - arm_moment 6 (between 4 6 ls) /\
  (between 4 6 ls = [] ->
   snd (SimpleBeam.section ls 74 6) - snd (SimpleBeam.section ls 74 4)
     == fst (SimpleBeam.section ls 74 6) * (6 - 4)).
Proof.
  apply (moment_grows_by_shear
           [Load.mk "point" 100 5; Load.mk "point" 30 2] 74 4 6).
  vm_compute. discriminate.
Defined.

(** ** The sample grid *)

Lemma linspace_length (a b : Q) (num : nat) :
  List.length (linspace a b num) = num.
Proof. unfold linspace. cbv zeta. now rewrite length_map, length_seq. Qed.

Lemma nth_map_lt {A B} (f : A -> B) (l : list A) (i : nat) (d : B) (d' : A) :
  (i < List.length l)%nat -> nth i (map f l) d = f (nth i l d').
Proof.
  intros H. rewrite (nth_indep _ d (f d')) by (now rewrite length_map).
  apply map_nth.
Qed.

Lemma linspace_nth (a b d : Q) (num i : nat) :
  (i < num)%nat ->
  nth i (linspace a b num) d
  = a + inject_Z (Z.of_nat i) * ((b - a) / inject_Z (Z.of_nat (num - 1))).
Proof.
  intros H. unfold linspace. cbv zeta.
  rewrite (nth_map_lt _ _ _ _ 0%nat) by (now rewrite length_seq).
  now rewrite seq_nth.
Qed.

Lemma grid_nth (L d : Q) (i : nat) :
  (i < 500)%nat ->
  nth i (linspace 0 L 500) d == inject_Z (Z.of_nat i) * L / 499.
Proof.
  intros H. rewrite (linspace_nth 0 L d 500 i H).
  change (inject_Z (Z.of_nat (500 - 1))) with 499. field.
Qed.

Lemma inject_nat_lt (i j : nat) :
  (i < j)%nat -> inject_Z (Z.of_nat i) < inject_Z (Z.of_nat j).
Proof. intros H. rewrite <- Zlt_Qlt. lia. Qed.

Lemma inject_nat_nonneg (i : nat) : 0 <= inject_Z (Z.of_nat i).
Proof. change 0 with (inject_Z 0). rewrite <- Zle_Qle. lia. Qed.

Lemma grid_in_span (L x : Q) :
  0 <= L -> In x (linspace 0 L 500) -> 0 <= x /\ x <= L.
Proof.
  intros HL Hin. apply (In_nth _ _ 0) in Hin. destruct Hin as (i & Hi & <-).
  rewrite linspace_length in Hi. rewrite (grid_nth L 0 i Hi).
  pose proof (inject_nat_nonneg i) as H0.
  assert (H1 : inject_Z (Z.of_nat i) <= 499).
  { change 499 with (inject_Z 499). rewrite <- Zle_Qle. lia. }
  split.
  - apply Qle_shift_div_l; [reflexivity|]. nra.
  - apply Qle_shift_div_r; [reflexivity|]. nra.
Qed.

(** X3.  The grid of the profiles: [calculate_internal_forces] returns three
    lists of 500 entries; on a span [L > 0] the positions start at [0], end
    at [L], increase strictly and stay within [[0, L]]. *)
Theorem profile_grid_is_ascending
  (L ra rb : Q) (ls : list Load.t) (HL : 0 < L) :
  exists xs Vs Ms,
    run (SimpleBeam.calculate_internal_forces ra rb) (SimpleBeam.mk L ls)
      = Ok (xs, Vs, Ms) /\
    (List.length xs = 500%nat /\ List.length Vs = 500%nat
     /\ List.length Ms = 500%nat) /\
    nth 0 xs 1 == 0 /\
    nth 499 xs 0 == L /\
    (forall i j : nat, (i < j)%nat -> (j < 500)%nat -> nth i xs 0 < nth j xs 0) /\
    Forall (fun x => 0 <= x /\ x <= L) xs.
Proof.
  do 3 eexists. split; [reflexivity|].
  cbn [SimpleBeam.length SimpleBeam.loads].
  split; [rewrite !length_map, linspace_length; auto|].
  split; [rewrite grid_nth by lia; field|].
  split; [rewrite grid_nth by lia; field|].
  split.
  - intros i j Hij Hj. rewrite !grid_nth by lia.
    pose proof (inject_nat_lt i j Hij) as Hlt.
    apply Qlt_shift_div_l; [reflexivity|].
    assert (E : inject_Z (Z.of_nat i) * L / 499 * 499 == inject_Z (Z.of_nat i) * L)
      by field.
    rewrite E. nra.
  - apply List.Forall_forall. intros x Hx. apply grid_in_span; [lra | exact Hx].
Qed.

Lemma profile_grid_is_ascending_witness :
  exists xs Vs Ms,
    run (SimpleBeam.calculate_internal_forces 50 50)
        (SimpleBeam.mk 10 [Load.mk "point" 100 5])
      = Ok (xs, Vs, Ms) /\
    (List.length xs = 500%nat /\ List.length Vs = 500%nat
     /\ List.length Ms = 500%nat) /\
    nth 0 xs 1 == 0 /\
    nth 499 xs 0 == 10 /\
    (forall i j : nat, (i < j)%nat -> (j < 500)%nat -> nth i xs 0 < nth j xs 0) /\
    Forall (fun x => 0 <= x /\ x <= 10) xs.
Proof.
  apply (profile_grid_is_ascending 10 50 50 [Load.mk "point" 100 5]).
  reflexivity.
Defined.

(** ** The supports *)

Lemma simple_beam_analysis_run (b : SimpleBeam.t) :
  run simple_beam_analysis b =
  match py_div (fst (fold_left SimpleBeam.reactions_step (SimpleBeam.loads b) (0, 0)))
               (SimpleBeam.length b) with
  | Ok rb =>
      let ra :=
        snd (fold_left SimpleBeam.reactions_step (SimpleBeam.loads b) (0, 0)) - rb in
      let xs := linspace 0 (SimpleBeam.length b) 500 in
      Ok (ra, rb, xs,
          map (fun x => fst (SimpleBeam.section (SimpleBeam.loads b) ra x)) xs,
          map (fun x => snd (SimpleBeam.section (SimpleBeam.loads b) ra x)) xs)
  | Raise e => Raise e
  end.
Proof.
  cbv beta iota zeta delta
    [simple_beam_analysis run bind SimpleBeam.solve_reactions
     SimpleBeam.calculate_internal_forces get lift ret].
  destruct (fold_left _ _ _) as [m t]. cbn [fst snd].
  destruct (py_div m (SimpleBeam.length b)); reflexivity.
Qed.

Lemma left_none (x : Q) (ls : list Load.t) :
  Forall (fun l => x <= Load.x l) ls -> left_of x ls = [].
Proof.
  unfold left_of. induction 1 as [|l ls Hl _ IH]; simpl; [reflexivity|].
  apply Qltb_le in Hl. now rewrite Hl.
Qed.

Lemma left_all (x : Q) (ls : list Load.t) :
  Forall (fun l => Load.x l < x) ls -> left_of x ls = ls.
Proof.
  unfold left_of. induction 1 as [|l ls Hl _ IH]; simpl; [reflexivity|].
  apply Qltb_lt in Hl. now rewrite Hl, IH.
Qed.

Lemma arm_left_of_span (x : Q) (ls : list Load.t) :
  Forall (fun l => Load.x l <= x) ls ->
  arm_moment x (left_of x ls) == arm_moment x ls.
Proof.
  unfold left_of. induction 1 as [|l ls Hl _ IH]; simpl; [reflexivity|].
  destruct (Qltb (Load.x l) x) eqn:E; simpl.
  - now rewrite IH.
  - apply Qltb_le in E. rewrite IH.
    assert (Hx : Load.x l == x) by lra. rewrite Hx. ring.
Qed.

(** X4.  The supports of [SimpleBeam]: on a span [L > 0] with every load
    standing within [[0, L]], the profile that follows [solve_reactions]
    has zero bending moment at its first sample ([x = 0]) and at its last
    one ([x = L]); the shear starts at [Ra], and ends at [-Rb] when no load
    stands at the right support. *)
Theorem moment_vanishes_at_supports
  (L : Q) (ls : list Load.t) (HL : 0 < L)
  (Hin : Forall (fun l => 0 <= Load.x l /\ Load.x l <= L) ls) :
  exists ra rb xs Vs Ms,
    run simple_beam_analysis (SimpleBeam.mk L ls) = Ok (ra, rb, xs, Vs, Ms) /\
    nth 0 Ms 1 == 0 /\
    nth 499 Ms 1 == 0 /\
    nth 0 Vs 0 == ra /\
    (Forall (fun l => Load.x l < L) ls -> nth 499 Vs 0 == - rb).
Proof.
  assert (HL0 : ~ L == 0) by lra.
  rewrite simple_beam_analysis_run. cbv zeta.
  cbn [SimpleBeam.length SimpleBeam.loads].
  rewrite (py_div_nonzero _ _ HL0).
  destruct (reactions_fold ls 0 0) as [Hm Ht].
  set (m := fst (fold_left SimpleBeam.reactions_step ls (0, 0))) in *.
  set (t := snd (fold_left SimpleBeam.reactions_step ls (0, 0))) in *.
  do 5 eexists. split; [reflexivity|].
  rewrite !(nth_map_lt _ _ _ _ 0) by (rewrite linspace_length; lia).
  pose proof (grid_nth L 0 0 ltac:(lia)) as H0.
  pose proof (grid_nth L 0 499 ltac:(lia)) as H1.
  set (x0 := nth 0 (linspace 0 L 500) 0) in *.
  set (x1 := nth 499 (linspace 0 L 500) 0) in *.
  assert (E0 : x0 == 0) by (rewrite H0; field).
  assert (E1 : x1 == L) by (rewrite H1; field).
  destruct (cut_fold x0 ls (t - m / L) ((t - m / L) * x0)) as [HV0 HM0].
  destruct (cut_fold x1 ls (t - m / L) ((t - m / L) * x1)) as [HV1 HM1].
  unfold SimpleBeam.section.
  assert (Hleft0 : left_of x0 ls = []).
  { apply left_none. eapply Forall_impl; [exact Hin|]. cbv beta. intros l Hl. lra. }
  assert (Hle1 : Forall (fun l => Load.x l <= x1) ls).
  { eapply Forall_impl; [exact Hin|]. cbv beta. intros l Hl. lra. }
  split; [|split; [|split]].
  - rewrite HM0, Hleft0. cbn [arm_moment fold_right]. rewrite E0. ring.
  - rewrite HM1, (arm_left_of_span x1 ls Hle1), arm_moment_total, Hm, Ht, E1.
    field. exact HL0.
  - rewrite HV0, Hleft0. simpl. ring.
  - intros Hlt. rewrite HV1, (left_all x1 ls), Ht.
    + field. exact HL0.
    + eapply Forall_impl; [exact Hlt|]. cbv beta. intros l Hl. lra.
Qed.

Lemma moment_vanishes_at_supports_witness :
  exists ra rb xs Vs Ms,
    run simple_beam_analysis
        (SimpleBeam.mk 10 [Load.mk "point" 100 5; Load.mk "point" 30 10])
      = Ok (ra, rb, xs, Vs, Ms) /\
    nth 0 Ms 1 == 0 /\
    nth 499 Ms 1 == 0 /\
    nth 0 Vs 0 == ra /\
    (Forall (fun l => Load.x l < 10)
            [Load.mk "point" 100 5; Load.mk "point" 30 10] ->
     nth 499 Vs 0 == - rb).
Proof.
  apply (moment_vanishes_at_supports 10
           [Load.mk "point" 100 5; Load.mk "point" 30 10]).
  - reflexivity.
  - repeat constructor; vm_compute; discriminate.
Defined.

(** ** The UDL along the beam *)

Lemma udl_covered_before (w s e x : Q) :
  x <= s -> udl_covered (UDL.mk w s e) x == 0.
Proof.
  intros H. unfold udl_covered. cbn [UDL.start UDL.end_].
  destruct (Q.min_spec x e) as [[? Hmin]|[? Hmin]];
    destruct (Q.max_spec 0 (Qmin x e - s)) as [[? Hmax]|[? Hmax]];
    rewrite Hmax; lra.
Qed.

Lemma udl_covered_inside (w s e x : Q) :
  s <= x -> x <= e -> udl_covered (UDL.mk w s e) x == x - s.
Proof.
  intros H1 H2. unfold udl_covered. cbn [UDL.start UDL.end_].
  destruct (Q.min_spec x e) as [[? Hmin]|[? Hmin]];
    destruct (Q.max_spec 0 (Qmin x e - s)) as [[? Hmax]|[? Hmax]];
    rewrite Hmax; lra.
Qed.

Lemma udl_covered_past (w s e x : Q) :
  s <= e -> e <= x -> udl_covered (UDL.mk w s e) x == e - s.
Proof.
  intros H1 H2. unfold udl_covered. cbn [UDL.start UDL.end_].
  destruct (Q.min_spec x e) as [[? Hmin]|[? Hmin]];
    destruct (Q.max_spec 0 (Qmin x e - s)) as [[? Hmax]|[? Hmax]];
    rewrite Hmax; lra.
Qed.

Lemma level2_section_closed (P xp w s e ra x : Q) :
  let pl := PointLoad.mk P xp in
  let u := UDL.mk w s e in
  fst (BeamLevel2.section pl u ra x)
    == ra - total_load (left_of x [as_load pl]) - w * udl_covered u x /\
  snd (BeamLevel2.section pl u ra x)
    == ra * x - arm_moment x (left_of x [as_load pl])
       - w * udl_covered u x * (x - (s + udl_covered u x / 2)).
Proof.
  cbv zeta.
  destruct (level2_section_split (PointLoad.mk P xp) (UDL.mk w s e) ra x)
    as [HV HM].
  cbn [fst snd] in HV, HM. unfold udl_shear, udl_moment in HV, HM.
  cbn [UDL.w UDL.start] in HV, HM.
  destruct (cut_fold x [as_load (PointLoad.mk P xp)] ra (ra * x)) as [H1 H2].
  unfold SimpleBeam.section in HV, HM.
  rewrite HV, HM, H1, H2. split; reflexivity.
Qed.

(** X5.  The supports of [BeamLevel2]: on a span [L > 0] with the point load
    within [[0, L]] and the UDL on [0 <= start <= end <= L], the profile of
    [solve_analysis] has zero bending moment at its first sample and at its
    last one, and its shear starts at [Ra]. *)
Theorem level2_moment_vanishes_at_supports
  (L P xp w s e : Q) (HL : 0 < L)
  (Hp : 0 <= xp /\ xp <= L) (Hu : 0 <= s /\ s <= e /\ e <= L) :
  exists ra rb xs Vs Ms,
    level2_page L P xp w s e = Ok (ra, rb, xs, Vs, Ms) /\
    nth 0 Ms 1 == 0 /\
    nth 499 Ms 1 == 0 /\
    nth 0 Vs 0 == ra.
Proof.
  assert (HL0 : ~ L == 0) by lra.
  rewrite level2_page_run, solve_analysis_run. cbv zeta.
  cbn [BeamLevel2.length BeamLevel2.point_load BeamLevel2.udl
       PointLoad.P PointLoad.x UDL.start UDL.end_].
  unfold udl_total. cbn [UDL.w UDL.start UDL.end_].
  rewrite (py_div_nonzero _ _ HL0).
  do 5 eexists. split; [reflexivity|].
  rewrite !(nth_map_lt _ _ _ _ 0) by (rewrite linspace_length; lia).
  pose proof (grid_nth L 0 0 ltac:(lia)) as H0.
  pose proof (grid_nth L 0 499 ltac:(lia)) as H1.
  set (x0 := nth 0 (linspace 0 L 500) 0) in *.
  set (x1 := nth 499 (linspace 0 L 500) 0) in *.
  assert (E0 : x0 == 0) by (rewrite H0; field).
  assert (E1 : x1 == L) by (rewrite H1; field).
  set (rb := (P * xp + w * (e - s) * ((s + e) / 2)) / L).
  destruct (level2_section_closed P xp w s e (P + w * (e - s) - rb) x0)
    as [HV0 HM0].
  destruct (level2_section_closed P xp w s e (P + w * (e - s) - rb) x1)
    as [HV1 HM1].
  cbv zeta in HV0, HM0, HV1, HM1.
  assert (Hleft0 : left_of x0 [as_load (PointLoad.mk P xp)] = []).
  { apply left_none. repeat constructor. simpl. lra. }
  assert (Hle1 : Forall (fun l => Load.x l <= x1) [as_load (PointLoad.mk P xp)]).
  { repeat constructor. simpl. lra. }
  assert (Hc0 : udl_covered (UDL.mk w s e) x0 == 0)
    by (apply udl_covered_before; lra).
  assert (Hc1 : udl_covered (UDL.mk w s e) x1 == e - s)
    by (apply udl_covered_past; lra).
  split; [|split].
  - rewrite HM0, Hleft0, Hc0. cbn [arm_moment fold_right]. rewrite E0. ring.
  - rewrite HM1, (arm_left_of_span x1 _ Hle1), Hc1.
    cbn [arm_moment fold_right as_load Load.P Load.x PointLoad.P PointLoad.x].
    rewrite E1. unfold rb. field. exact HL0.
  - rewrite HV0, Hleft0, Hc0. cbn [total_load fold_right]. ring.
Qed.

Lemma level2_moment_vanishes_at_supports_witness :
  exists ra rb xs Vs Ms,
    level2_page 10 50 5 10 2 6 = Ok (ra, rb, xs, Vs, Ms) /\
    nth 0 Ms 1 == 0 /\
    nth 499 Ms 1 == 0 /\
    nth 0 Vs 0 == ra.
Proof.
  apply (level2_moment_vanishes_at_supports 10 50 5 10 2 6).
  - reflexivity.
  - split; vm_compute; discriminate.
  - repeat split; vm_compute; discriminate.
Defined.

Lemma single_left_of (P xp x : Q) :
  (xp < x -> left_of x [as_load (PointLoad.mk P xp)] = [as_load (PointLoad.mk P xp)]) /\
  (x <= xp -> left_of x [as_load (PointLoad.mk P xp)] = []).
Proof.
  split; intros H.
  - apply left_all. repeat constructor. exact H.
  - apply left_none. repeat constructor. exact H.
Qed.

(** X6.  Under the UDL: for two cuts [start <= x1 <= x2 <= end] with the point
    load not in [[x1, x2)], the shear of [BeamLevel2] falls by
    [w * (x2 - x1)] (a straight line of slope [-w]) and the moment is
    [M(x1) + V(x1) * (x2 - x1) - w * (x2 - x1)^2 / 2] (a parabola). *)
Theorem udl_shear_is_linear
  (P xp w s e ra x1 x2 : Q)
  (H1 : s <= x1) (H12 : x1 <= x2) (H2 : x2 <= e)
  (Hp : xp < x1 \/ x2 <= xp) :
  let pl := PointLoad.mk P xp in
  let u := UDL.mk w s e in
  fst (BeamLevel2.section pl u ra x1) - fst (BeamLevel2.section pl u ra x2)
    == w * (x2 - x1) /\
  snd (BeamLevel2.section pl u ra x2)
    == snd (BeamLevel2.section pl u ra x1)
       + fst (BeamLevel2.section pl u ra x1) * (x2 - x1)
       - w * (x2 - x1) * (x2 - x1) / 2.
Proof.
  cbv zeta.
  destruct (level2_section_closed P xp w s e ra x1) as [HV1 HM1].
  destruct (level2_section_closed P xp w s e ra x2) as [HV2 HM2].
  cbv zeta in HV1, HM1, HV2, HM2.
  assert (Hc1 : udl_covered (UDL.mk w s e) x1 == x1 - s)
    by (apply udl_covered_inside; lra).
  assert (Hc2 : udl_covered (UDL.mk w s e) x2 == x2 - s)
    by (apply udl_covered_inside; lra).
  destruct (single_left_of P xp x1) as [L1 N1].
  destruct (single_left_of P xp x2) as [L2 N2].
  rewrite HV1, HV2, HM1, HM2, Hc1, Hc2.
  destruct Hp as [Hp|Hp].
  - rewrite (L1 Hp), (L2 ltac:(lra)).
    cbn [total_load arm_moment fold_right as_load Load.P Load.x
         PointLoad.P PointLoad.x].
    split; field.
  - rewrite (N1 ltac:(lra)), (N2 Hp).
    cbn [total_load arm_moment fold_right]. split; field.
Qed.

Lemma udl_shear_is_linear_witness :
  let pl := PointLoad.mk 50 5 in
  let u := UDL.mk 10 2 8 in
  fst (BeamLevel2.section pl u 55 6) - fst (BeamLevel2.section pl u 55 7)
    == 10 * (7 - 6) /\
  snd (BeamLevel2.section pl u 55 7)
    == snd (BeamLevel2.section pl u 55 6)
       + fst (BeamLevel2.section pl u 55 6) * (7 - 6)
       - 10 * (7 - 6) * (7 - 6) / 2.
Proof.
  apply (udl_shear_is_linear 50 5 10 2 8 55 6 7);
    try (left; reflexivity); vm_compute; discriminate.
Defined.

(** X7.  Outside the UDL: at a cut that lies before the start or past the end
    of the segment ([start <= end]), [BeamLevel2] gives the shear and moment
    that [SimpleBeam] gives when the UDL is replaced by its resultant, the
    force [w * (end - start)] at the centroid [(start + end) / 2]. *)
Theorem udl_acts_as_resultant_outside
  (P xp w s e ra x : Q) (Hse : s <= e) (Hout : x <= s \/ e <= x) :
  let pl := PointLoad.mk P xp in
  let u := UDL.mk w s e in
  pair_eq (BeamLevel2.section pl u ra x)
          (SimpleBeam.section [as_load pl; udl_resultant u] ra x).
Proof.
  cbv zeta.
  destruct (level2_section_closed P xp w s e ra x) as [HV HM].
  cbv zeta in HV, HM.
  unfold pair_eq. rewrite HV, HM. clear HV HM.
  assert (Hmid : (s + e) / 2 * 2 == s + e) by field.
  destruct (cut_fold x [as_load (PointLoad.mk P xp); udl_resultant (UDL.mk w s e)]
                     ra (ra * x)) as [HV HM].
  unfold SimpleBeam.section. rewrite HV, HM. clear HV HM.
  unfold left_of, udl_resultant, as_load.
  cbn [List.filter Load.x Load.P PointLoad.P PointLoad.x
       UDL.w UDL.start UDL.end_ fst snd].
  destruct (Qltb xp x);
    (destruct (Qltb ((s + e) / 2) x) eqn:Ec;
     [ apply Qltb_lt in Ec | apply Qltb_le in Ec ]);
    cbn [total_load arm_moment fold_right Load.P Load.x];
    (destruct Hout as [Hx|Hx];
     [ rewrite (udl_covered_before w s e x Hx)
     | rewrite (udl_covered_past w s e x Hse Hx) ]);
    try (split; field);
    try (exfalso; set (c := (s + e) / 2) in *; clearbody c; lra);
    assert (Hes : e == s)
      by (set (c := (s + e) / 2) in *; clearbody c; lra);
    rewrite Hes; split; field.
Qed.

Lemma udl_acts_as_resultant_outside_witness :
  let pl := PointLoad.mk 50 5 in
  let u := UDL.mk 10 2 6 in
  pair_eq (BeamLevel2.section pl u 55 8)
          (SimpleBeam.section [as_load pl; udl_resultant u] 55 8).
Proof.
  apply (udl_acts_as_resultant_outside 50 5 10 2 6 55 8).
  - vm_compute. discriminate.
  - right. vm_compute. discriminate.
Defined.

(** ** Loads add up *)

Lemma left_of_app (x : Q) (l1 l2 : list Load.t) :
  left_of x (l1 ++ l2) = left_of x l1 ++ left_of x l2.
Proof. unfold left_of. apply List.filter_app. Qed.

Lemma arm_moment_app (x : Q) (l1 l2 : list Load.t) :
  arm_moment x (l1 ++ l2) == arm_moment x l1 + arm_moment x l2.
Proof.
  induction l1 as [|l l1 IH]; simpl; [ring | rewrite IH; ring].
Qed.

(** X8.  Superposition in [SimpleBeam]: on a span [L <> 0] the reactions of a
    beam carrying the loads [ls1 ++ ls2] are the sums of the reactions for
    [ls1] alone and for [ls2] alone, and so are the shear and the moment at
    every cut. *)
Theorem reactions_superpose
  (L : Q) (ls1 ls2 : list Load.t) (HL : ~ L == 0) :
  exists ra1 rb1 ra2 rb2 ra rb,
    run SimpleBeam.solve_reactions (SimpleBeam.mk L ls1) = Ok (ra1, rb1) /\
    run SimpleBeam.solve_reactions (SimpleBeam.mk L ls2) = Ok (ra2, rb2) /\
    run SimpleBeam.solve_reactions (SimpleBeam.mk L (ls1 ++ ls2)) = Ok (ra, rb) /\
    ra == ra1 + ra2 /\
    rb == rb1 + rb2 /\
    forall x,
      fst (SimpleBeam.section (ls1 ++ ls2) ra x)
        == fst (SimpleBeam.section ls1 ra1 x) + fst (SimpleBeam.section ls2 ra2 x) /\
      snd (SimpleBeam.section (ls1 ++ ls2) ra x)
        == snd (SimpleBeam.section ls1 ra1 x) + snd (SimpleBeam.section ls2 ra2 x).
Proof.
  rewrite !solve_reactions_run. cbn [SimpleBeam.length SimpleBeam.loads].
  rewrite !(py_div_nonzero _ _ HL).
  destruct (reactions_fold ls1 0 0) as [Hm1 Ht1].
  destruct (reactions_fold ls2 0 0) as [Hm2 Ht2].
  destruct (reactions_fold (ls1 ++ ls2) 0 0) as [Hm Ht].
  rewrite load_moment_app in Hm. rewrite total_load_app in Ht.
  do 6 eexists. split; [reflexivity|]. split; [reflexivity|].
  split; [reflexivity|].
  assert (Hrb : fst (fold_left SimpleBeam.reactions_step (ls1 ++ ls2) (0, 0)) / L
                == fst (fold_left SimpleBeam.reactions_step ls1 (0, 0)) / L
                   + fst (fold_left SimpleBeam.reactions_step ls2 (0, 0)) / L).
  { rewrite Hm, Hm1, Hm2. field. exact HL. }
  assert (Hra : snd (fold_left SimpleBeam.reactions_step (ls1 ++ ls2) (0, 0))
                - fst (fold_left SimpleBeam.reactions_step (ls1 ++ ls2) (0, 0)) / L
                == snd (fold_left SimpleBeam.reactions_step ls1 (0, 0))
                   - fst (fold_left SimpleBeam.reactions_step ls1 (0, 0)) / L
                   + (snd (fold_left SimpleBeam.reactions_step ls2 (0, 0))
                      - fst (fold_left SimpleBeam.reactions_step ls2 (0, 0)) / L)).
  { rewrite Hrb, Ht, Ht1, Ht2. ring. }
  split; [exact Hra|]. split; [exact Hrb|].
  intros x. unfold SimpleBeam.section.
  match goal with
  | |- fst (fold_left _ _ (?a, _)) == fst (fold_left _ _ (?a1, _))
                                     + fst (fold_left _ _ (?a2, _)) /\ _ =>
      destruct (cut_fold x (ls1 ++ ls2) a (a * x)) as [HV HM];
      destruct (cut_fold x ls1 a1 (a1 * x)) as [HV1 HM1];
      destruct (cut_fold x ls2 a2 (a2 * x)) as [HV2 HM2]
  end.
  rewrite HV, HM, HV1, HM1, HV2, HM2, left_of_app, total_load_app,
    arm_moment_app, Hra.
  split; ring.
Qed.

Lemma reactions_superpose_witness :
  exists ra1 rb1 ra2 rb2 ra rb,
    run SimpleBeam.solve_reactions
        (SimpleBeam.mk 10 [Load.mk "point" 100 5]) = Ok (ra1, rb1) /\
    run SimpleBeam.solve_reactions
        (SimpleBeam.mk 10 [Load.mk "point" 30 2]) = Ok (ra2, rb2) /\
    run SimpleBeam.solve_reactions
        (SimpleBeam.mk 10 ([Load.mk "point" 100 5] ++ [Load.mk "point" 30 2]))
      = Ok (ra, rb) /\
    ra == ra1 + ra2 /\
    rb == rb1 + rb2 /\
    forall x,
      fst (SimpleBeam.section ([Load.mk "point" 100 5] ++ [Load.mk "point" 30 2]) ra x)
        == fst (SimpleBeam.section [Load.mk "point" 100 5] ra1 x)
           + fst (SimpleBeam.section [Load.mk "point" 30 2] ra2 x) /\
      snd (SimpleBeam.section ([Load.mk "point" 100 5] ++ [Load.mk "point" 30 2]) ra x)
        == snd (SimpleBeam.section [Load.mk "point" 100 5] ra1 x)
           + snd (SimpleBeam.section [Load.mk "point" 30 2] ra2 x).
Proof.
  apply (reactions_superpose 10 [Load.mk "point" 100 5] [Load.mk "point" 30 2]).
  vm_compute. discriminate.
Defined.

(** X9.  [add_point_load] accumulates: on a span [L <> 0], adding the load [P]
    at [x] to a beam raises its reactions by [P - P*x/L] on the left and
    [P*x/L] on the right, the reactions [solve_beam] gives for that load
    alone; the loads already on the beam stay. *)
Theorem add_point_load_adds_reactions
  (L P x : Q) (ls : list Load.t) (HL : ~ L == 0) :
  exists ra rb ra' rb',
    run SimpleBeam.solve_reactions (SimpleBeam.mk L ls) = Ok (ra, rb) /\
    run (_ <- SimpleBeam.add_point_load P x ;; SimpleBeam.solve_reactions)
        (SimpleBeam.mk L ls) = Ok (ra', rb') /\
    solve_beam L P x = Ok (P - P * x / L, P * x / L) /\
    ra' == ra + (P - P * x / L) /\
    rb' == rb + P * x / L /\
    exec (SimpleBeam.add_point_load P x) (SimpleBeam.mk L ls)
      = SimpleBeam.mk L (ls ++ [Load.mk "point" P x]).
Proof.
  change (run (_ <- SimpleBeam.add_point_load P x ;; SimpleBeam.solve_reactions)
              (SimpleBeam.mk L ls))
    with (run SimpleBeam.solve_reactions
              (SimpleBeam.mk L (ls ++ [Load.mk "point" P x]))).
  rewrite !solve_reactions_run. cbn [SimpleBeam.length SimpleBeam.loads].
  unfold solve_beam. rewrite !(py_div_nonzero _ _ HL).
  destruct (reactions_fold ls 0 0) as [Hm1 Ht1].
  destruct (reactions_fold (ls ++ [Load.mk "point" P x]) 0 0) as [Hm Ht].
  rewrite load_moment_app in Hm. rewrite total_load_app in Ht.
  cbn [load_moment_about total_load fold_right Load.P Load.x] in Hm, Ht.
  do 4 eexists. split; [reflexivity|]. split; [reflexivity|].
  split; [reflexivity|].
  split; [|split; [|reflexivity]].
  - rewrite Hm, Ht, Hm1, Ht1. field. exact HL.
  - rewrite Hm, Hm1. field. exact HL.
Qed.

Lemma add_point_load_adds_reactions_witness :
  exists ra rb ra' rb',
    run SimpleBeam.solve_reactions
        (SimpleBeam.mk 10 [Load.mk "point" 100 5]) = Ok (ra, rb) /\
    run (_ <- SimpleBeam.add_point_load 30 2 ;; SimpleBeam.solve_reactions)
        (SimpleBeam.mk 10 [Load.mk "point" 100 5]) = Ok (ra', rb') /\
    solve_beam 10 30 2 = Ok (30 - 30 * 2 / 10, 30 * 2 / 10) /\
    ra' == ra + (30 - 30 * 2 / 10) /\
    rb' == rb + 30 * 2 / 10 /\
    exec (SimpleBeam.add_point_load 30 2)
         (SimpleBeam.mk 10 [Load.mk "point" 100 5])
      = SimpleBeam.mk 10 ([Load.mk "point" 100 5] ++ [Load.mk "point" 30 2]).
Proof.
  apply (add_point_load_adds_reactions 10 30 2 [Load.mk "point" 100 5]).
  vm_compute. discriminate.
Defined.

Lemma total_left_perm (x : Q) (l l' : list Load.t) :
  Permutation l l' ->
  total_load l == total_load l' /\
  load_moment_about 0 l == load_moment_about 0 l' /\
  total_load (left_of x l) == total_load (left_of x l') /\
  arm_moment x (left_of x l) == arm_moment x (left_of x l').
Proof.
  unfold left_of.
  induction 1 as [|a l l' _ (I1 & I2 & I3 & I4)|a b l
                  |l l' l'' _ (I1 & I2 & I3 & I4) _ (J1 & J2 & J3 & J4)]; simpl.
  - repeat split; reflexivity.
  - destruct (Qltb (Load.x a) x); simpl;
      rewrite ?I1, ?I2, ?I3, ?I4; repeat split; reflexivity.
  - destruct (Qltb (Load.x a) x); destruct (Qltb (Load.x b) x); simpl;
      repeat split; ring.
  - rewrite I1, I2, I3, I4. repeat split; assumption.
Qed.

(** X10.  The order of the loads is immaterial: two [SimpleBeam]s of the same
    span whose load lists are permutations of each other get the same
    reactions (or both raise), and the same shear and moment at every cut. *)
Theorem load_order_is_immaterial
  (L : Q) (ls ls' : list Load.t) (Hperm : Permutation ls ls') :
  result_eq pair_eq
    (run SimpleBeam.solve_reactions (SimpleBeam.mk L ls))
    (run SimpleBeam.solve_reactions (SimpleBeam.mk L ls')) /\
  forall ra x, pair_eq (SimpleBeam.section ls ra x) (SimpleBeam.section ls' ra x).
Proof.
  split.
  - rewrite !solve_reactions_run. cbn [SimpleBeam.length SimpleBeam.loads].
    unfold py_div. destruct (Qeq_bool L 0); [reflexivity|].
    destruct (reactions_fold ls 0 0) as [Hm Ht].
    destruct (reactions_fold ls' 0 0) as [Hm' Ht'].
    destruct (total_left_perm 0 ls ls' Hperm) as (P1 & P2 & _).
    unfold result_eq, pair_eq. cbn [fst snd].
    assert (E : fst (fold_left SimpleBeam.reactions_step ls (0, 0))
                == fst (fold_left SimpleBeam.reactions_step ls' (0, 0)))
      by (rewrite Hm, Hm', P2; reflexivity).
    split.
    + rewrite Ht, Ht', P1, E. reflexivity.
    + rewrite E. reflexivity.
  - intros ra x. unfold SimpleBeam.section, pair_eq.
    destruct (cut_fold x ls ra (ra * x)) as [HV HM].
    destruct (cut_fold x ls' ra (ra * x)) as [HV' HM'].
    destruct (total_left_perm x ls ls' Hperm) as (_ & _ & P3 & P4).
    rewrite HV, HM, HV', HM', P3, P4. split; reflexivity.
Qed.

Lemma load_order_is_immaterial_witness :
  result_eq pair_eq
    (run SimpleBeam.solve_reactions
         (SimpleBeam.mk 10 [Load.mk "point" 100 5; Load.mk "point" 30 2]))
    (run SimpleBeam.solve_reactions
         (SimpleBeam.mk 10 [Load.mk "point" 30 2; Load.mk "point" 100 5])) /\
  forall ra x,
    pair_eq (SimpleBeam.section [Load.mk "point" 100 5; Load.mk "point" 30 2] ra x)
            (SimpleBeam.section [Load.mk "point" 30 2; Load.mk "point" 100 5] ra x).
Proof.
  apply (load_order_is_immaterial 10).
  apply perm_swap.
Defined.

(** ** One load: mirror image and bounds *)

(** X11.  Mirror image: on a span [L <> 0], moving the load from [x] to
    [L - x] swaps the two reactions of [solve_beam], and the moment of the
    mirrored problem at the cut [L - v] is the moment of the original one
    at the cut [v]. *)
Theorem mirrored_load_swaps_reactions (L P x : Q) (HL : ~ L == 0) :
  exists ra rb,
    solve_beam L P x = Ok (ra, rb) /\
    result_eq pair_eq (solve_beam L P (L - x)) (Ok (rb, ra)) /\
    forall v,
      snd (answer_section P (L - x) rb (L - v)) == snd (answer_section P x ra v).
Proof.
  unfold solve_beam. rewrite !(py_div_nonzero _ _ HL).
  do 2 eexists. split; [reflexivity|]. split.
  - unfold result_eq, pair_eq. cbn [fst snd]. split; field; exact HL.
  - intros v. unfold answer_section.
    destruct (Qgtb (L - v) (L - x)) eqn:E1; destruct (Qgtb v x) eqn:E2;
      cbn [snd];
      try apply Qgtb_lt in E1; try apply Qgtb_le in E1;
      try apply Qgtb_lt in E2; try apply Qgtb_le in E2;
      try (exfalso; lra);
      try (field; exact HL).
    assert (Hv : v == x) by lra. rewrite Hv. field. exact HL.
Qed.

Lemma mirrored_load_swaps_reactions_witness :
  exists ra rb,
    solve_beam 10 100 3 = Ok (ra, rb) /\
    result_eq pair_eq (solve_beam 10 100 (10 - 3)) (Ok (rb, ra)) /\
    forall v,
      snd (answer_section 100 (10 - 3) rb (10 - v)) == snd (answer_section 100 3 ra v).
Proof.
  apply (mirrored_load_swaps_reactions 10 100 3).
  vm_compute. discriminate.
Defined.

Lemma py_max_fold (l : list Q) (a : Q) :
  let m := fold_left (fun m v => if Qgtb v m then v else m) l a in
  (m = a \/ In m l) /\ a <= m /\ Forall (fun v => v <= m) l.
Proof.
  cbv zeta. revert a. induction l as [|v l IH]; intros a; simpl.
  - split; [left; reflexivity|]. split; [lra | constructor].
  - destruct (IH (if Qgtb v a then v else a)) as (Hin & Hle & Hall).
    destruct (Qgtb v a) eqn:E;
      [apply Qgtb_lt in E | apply Qgtb_le in E].
    + split; [destruct Hin as [->|Hin]; auto|].
      split; [lra|]. constructor; [exact Hle | exact Hall].
    + split; [destruct Hin as [->|Hin]; auto|].
      split; [exact Hle|]. constructor; [lra | exact Hall].
Qed.

Lemma py_max_spec (l : list Q) :
  l <> [] ->
  exists m, py_max l = Some m /\ In m l /\ Forall (fun v => v <= m) l.
Proof.
  destruct l as [|a l]; [congruence|]. intros _.
  destruct (py_max_fold l a) as (Hin & Hle & Hall).
  eexists. split; [reflexivity|]. split.
  - destruct Hin as [->|Hin]; [left; reflexivity | right; exact Hin].
  - constructor; assumption.
Qed.

Lemma grid_nonempty {A} (f : Q -> A) (L : Q) : map f (linspace 0 L 500) <> [].
Proof.
  intros H. apply (f_equal (@List.length A)) in H.
  rewrite length_map, linspace_length in H. discriminate.
Qed.

Lemma single_load_moment_range (L P x v : Q) :
  0 < L -> 0 <= P -> 0 <= x -> x <= L -> 0 <= v -> v <= L ->
  0 <= snd (answer_section P x (P - P * x / L) v) /\
  snd (answer_section P x (P - P * x / L) v) <= P * x * (L - x) / L.
Proof.
  intros HL HP Hx0 HxL Hv0 HvL.
  assert (HL0 : ~ L == 0) by lra.
  set (rb := P * x / L).
  assert (Hrb : rb * L == P * x) by (unfold rb; field; exact HL0).
  assert (Hrb0 : 0 <= rb) by (unfold rb; apply Qle_shift_div_l; [exact HL | nra]).
  assert (HrbP : rb <= P) by (unfold rb; apply Qle_shift_div_r; [exact HL | nra]).
  assert (HB : P * x * (L - x) / L == rb * (L - x))
    by (unfold rb; field; exact HL0).
  rewrite HB. unfold answer_section.
  destruct (Qgtb v x) eqn:E; cbn [snd];
    [apply Qgtb_lt in E | apply Qgtb_le in E].
  - assert (Hm : (P - rb) * v - P * (v - x) == rb * (L - v)) by nra.
    rewrite Hm. split; nra.
  - assert (Hm : rb * (L - x) == (P - rb) * x) by nra.
    rewrite Hm. split; nra.
Qed.

(** X12.  One load on the span: for [L > 0], [P >= 0] and [0 <= x <= L] the
    reactions of [solve_beam] are non-negative, the bending moment at every
    cut within the span lies between [0] and [P * x * (L - x) / L], the
    value under the load, and so does the "Max M" label of [plot_answer]. *)
Theorem single_load_moment_is_bounded
  (L P x : Q) (HL : 0 < L) (HP : 0 <= P) (Hx : 0 <= x /\ x <= L) :
  exists ra rb m,
    solve_beam L P x = Ok (ra, rb) /\
    (0 <= ra /\ 0 <= rb) /\
    (forall v, 0 <= v -> v <= L ->
       0 <= snd (answer_section P x ra v) /\
       snd (answer_section P x ra v) <= P * x * (L - x) / L) /\
    snd (answer_section P x ra x) == P * x * (L - x) / L /\
    max_M (plot_answer L P x ra rb) = Some m /\
    0 <= m /\ m <= P * x * (L - x) / L.
Proof.
  destruct Hx as [Hx0 HxL].
  assert (HL0 : ~ L == 0) by lra.
  unfold solve_beam. rewrite (py_div_nonzero _ _ HL0).
  destruct (py_max_spec _ (grid_nonempty
              (fun val => snd (answer_section P x (P - P * x / L) val)) L))
    as (m & Hm & Hin & _).
  exists (P - P * x / L), (P * x / L), m.
  split; [reflexivity|].
  split.
  { split.
    - assert (P * x / L <= P) by (apply Qle_shift_div_r; [exact HL | nra]). lra.
    - apply Qle_shift_div_l; [exact HL | nra]. }
  split; [intros v Hv0 HvL; apply single_load_moment_range; assumption|].
  split.
  { unfold answer_section.
    assert (E : Qgtb x x = false) by (apply Qgtb_le; lra).
    rewrite E. cbn [snd]. field. exact HL0. }
  split; [exact Hm|].
  apply in_map_iff in Hin. destruct Hin as (v & <- & Hv).
  apply grid_in_span in Hv; [|lra]. destruct Hv as [Hv0 HvL].
  apply single_load_moment_range; assumption.
Qed.

Lemma single_load_moment_is_bounded_witness :
  exists ra rb m,
    solve_beam 10 100 3 = Ok (ra, rb) /\
    (0 <= ra /\ 0 <= rb) /\
    (forall v, 0 <= v -> v <= 10 ->
       0 <= snd (answer_section 100 3 ra v) /\
       snd (answer_section 100 3 ra v) <= 100 * 3 * (10 - 3) / 10) /\
    snd (answer_section 100 3 ra 3) == 100 * 3 * (10 - 3) / 10 /\
    max_M (plot_answer 10 100 3 ra rb) = Some m /\
    0 <= m /\ m <= 100 * 3 * (10 - 3) / 10.
Proof.
  apply (single_load_moment_is_bounded 10 100 3).
  - reflexivity.
  - vm_compute. discriminate.
  - split; vm_compute; discriminate.
Defined.

(** ** The labels of the figures *)

(** X13.  The labels of [plot_analysis] on a profile of [SimpleBeam]: both
    [max] calls succeed, since the profile has 500 samples; "Max V" is the
    absolute value of one of the sampled shears, is non-negative and bounds
    the absolute value of every sampled shear; "Max M" is one of the
    sampled moments and bounds them all. *)
Theorem figure_labels_bound_the_samples
  (L ra rb : Q) (ls : list Load.t) :
  exists xs Vs Ms max_v max_m,
    run (SimpleBeam.calculate_internal_forces ra rb) (SimpleBeam.mk L ls)
      = Ok (xs, Vs, Ms) /\
    plot_analysis_labels Vs Ms = (Some max_v, Some max_m) /\
    Forall (fun V => Qabs V <= max_v) Vs /\
    (exists V, In V Vs /\ max_v = Qabs V) /\
    0 <= max_v /\
    Forall (fun M => M <= max_m) Ms /\
    In max_m Ms.
Proof.
  cbv beta iota zeta delta
    [run SimpleBeam.calculate_internal_forces bind get ret fst
     SimpleBeam.length SimpleBeam.loads plot_analysis_labels].
  set (Vs := map (fun x => fst (SimpleBeam.section ls ra x)) (linspace 0 L 500)).
  set (Ms := map (fun x => snd (SimpleBeam.section ls ra x)) (linspace 0 L 500)).
  assert (HV : map Qabs Vs <> []).
  { unfold Vs. rewrite List.map_map. apply grid_nonempty. }
  assert (HM : Ms <> []) by apply grid_nonempty.
  destruct (py_max_spec _ HV) as (mv & Emv & Inv & Allv).
  destruct (py_max_spec _ HM) as (mm & Emm & Inm & Allm).
  exists (linspace 0 L 500), Vs, Ms, mv, mm.
  split; [reflexivity|]. split; [now rewrite Emv, Emm|].
  apply in_map_iff in Inv. destruct Inv as (V & <- & HVin).
  split.
  { apply List.Forall_forall. intros V0 HV0.
    apply (proj1 (List.Forall_forall _ _) Allv). apply in_map. exact HV0. }
  split; [exists V; split; [exact HVin | reflexivity]|].
  split; [apply Qabs_nonneg|].
  split; assumption.
Qed.

(** ** The quiz session *)

Lemma init_session_lookup (st : gmap string ExamData.t) :
  init_session st !! "exam_data" = Some (current_exam st).
Proof.
  unfold current_exam, init_session.
  destruct (st !! "exam_data") as [e|] eqn:E.
  - rewrite E. reflexivity.
  - rewrite lookup_insert_eq. reflexivity.
Qed.

(** X14.  A run of the quiz page keeps the problem: [init_session] installs the
    default problem ([L = 10], [P = 100], [x = 5]) only when the session has
    none, leaves a stored problem and every other key as they are, and
    running it again changes nothing. *)
Theorem init_session_keeps_problem (st : gmap string ExamData.t) :
  init_session (init_session st) = init_session st /\
  init_session st !! "exam_data" = Some (current_exam st) /\
  current_exam (init_session st) = current_exam st /\
  (forall e, st !! "exam_data" = Some e ->
             init_session st = st /\ current_exam st = e) /\
  (st !! "exam_data" = None -> current_exam st = default_exam) /\
  (forall k : string, k <> "exam_data" -> init_session st !! k = st !! k).
Proof.
  pose proof (init_session_lookup st) as Hl.
  assert (Hidem : init_session (init_session st) = init_session st).
  { unfold init_session at 1. now rewrite Hl. }
  split; [exact Hidem|]. split; [exact Hl|]. split; [|split; [|split]].
  - unfold current_exam at 1. rewrite Hidem, Hl. reflexivity.
  - intros e He. unfold current_exam, init_session. rewrite He.
    split; [reflexivity|]. now rewrite He.
  - intros Hn. unfold current_exam, init_session. rewrite Hn.
    now rewrite lookup_insert_eq.
  - intros k Hk. unfold init_session.
    destruct (st !! "exam_data"); [reflexivity|].
    apply lookup_insert_ne. congruence.
Qed.

Lemma init_session_keeps_problem_witness :
  init_session (<["exam_data" := ExamData.mk 12 40 7 true]> ∅)
    = <["exam_data" := ExamData.mk 12 40 7 true]> ∅ /\
  current_exam (<["exam_data" := ExamData.mk 12 40 7 true]> ∅)
    = ExamData.mk 12 40 7 true.
Proof.
  apply (proj1 (proj2 (proj2 (proj2
           (init_session_keeps_problem
              (<["exam_data" := ExamData.mk 12 40 7 true]> ∅)))))).
  apply lookup_insert_eq.
Defined.

Lemma current_exam_init (st : gmap string ExamData.t) :
  current_exam (init_session st) = current_exam st.
Proof.
  pose proof (init_session_lookup st) as Hl.
  unfold current_exam at 1. unfold init_session at 1. now rewrite Hl, Hl.
Qed.

Lemma default_exam_in_range : exam_in_range default_exam.
Proof. repeat split; vm_compute; discriminate. Qed.

Lemma exam_in_range_solved (e : ExamData.t) :
  exam_in_range e ->
  solve_beam (ExamData.L e) (ExamData.P e) (ExamData.x e)
    = Ok (ExamData.P e - ExamData.P e * ExamData.x e / ExamData.L e,
          ExamData.P e * ExamData.x e / ExamData.L e) /\
  0 < ExamData.P e - ExamData.P e * ExamData.x e / ExamData.L e /\
  0 < ExamData.P e * ExamData.x e / ExamData.L e.
Proof.
  destruct e as [L P x h]. unfold exam_in_range. cbn [ExamData.L ExamData.P ExamData.x].
  intros ((HL1 & HL2) & (HP1 & HP2) & (Hx1 & Hx2)).
  assert (HL : 0 < L) by lra.
  assert (HL0 : ~ L == 0) by lra.
  unfold solve_beam. rewrite (py_div_nonzero _ _ HL0).
  split; [reflexivity|].
  assert (H1 : P * x / L < P) by (apply Qlt_shift_div_r; [exact HL | nra]).
  assert (H2 : 0 < P * x / L) by (apply Qlt_shift_div_l; [exact HL | nra]).
  split; lra.
Qed.

Section SessionProperties.

Variable rng : Type.
Variable randint : Z -> Z -> rng -> Z * rng.

Hypothesis randint_in_range :
  forall (a b : Z) (g : rng), (a <= b)%Z -> (a <= fst (randint a b g) <= b)%Z.

Lemma generated_exam_in_range (st : gmap string ExamData.t) (g : rng) :
  exam_in_range (current_exam (fst (on_generate rng randint st g))).
Proof.
  unfold on_generate.
  pose proof (randint_in_range 5 20 g ltac:(lia)) as HL.
  destruct (randint 5 20 g) as [zL g1]. cbn [fst] in HL.
  pose proof (randint_in_range 10 200 g1 ltac:(lia)) as HP.
  destruct (randint 10 200 g1) as [zP g2]. cbn [fst] in HP.
  pose proof (randint_in_range 1 (zL - 1) g2 ltac:(lia)) as Hx.
  destruct (randint 1 (zL - 1) g2) as [zx g3]. cbn [fst] in *.
  unfold current_exam, init_session.
  rewrite lookup_insert_eq. rewrite lookup_insert_eq.
  unfold exam_in_range.
  cbv beta iota delta [default from_option id ExamData.L ExamData.P ExamData.x].
  rewrite !Qmult_1_r.
  assert (E : inject_Z zL - 1 == inject_Z (zL - 1)).
  { unfold Z.sub. rewrite inject_Z_plus. reflexivity. }
  rewrite E.
  change 5 with (inject_Z 5). change 20 with (inject_Z 20).
  change 10 with (inject_Z 10). change 200 with (inject_Z 200).
  change 1 with (inject_Z 1).
  rewrite <- !Zle_Qle. lia.
Qed.

Lemma reachable_in_range (st : gmap string ExamData.t) :
  reachable rng randint st -> exam_in_range (current_exam st).
Proof.
  induction 1 as [|st _ IH|st g _ _].
  - exact default_exam_in_range.
  - rewrite current_exam_init. exact IH.
  - apply generated_exam_in_range.
Qed.

(** X15.  Every session of the quiz is solvable: in a session reached from a
    fresh one by runs of the page and clicks on the generate button, the
    current problem has [L] in [[5, 20]], [P] in [[10, 200]] and [x] in
    [[1, L - 1]]; [solve_beam] returns two positive reactions that add up
    to [P]; the submit handler never raises, whatever is submitted; and
    submitting those two reactions is marked correct. *)
Theorem reachable_session_is_solvable
  (st : gmap string ExamData.t) (user_ra user_rb : Q)
  (Hreach : reachable rng randint st) :
  exam_in_range (current_exam st) /\
  exists ra rb v v',
    solve_beam (ExamData.L (current_exam st)) (ExamData.P (current_exam st))
               (ExamData.x (current_exam st)) = Ok (ra, rb) /\
    (0 < ra /\ 0 < rb) /\
    ra + rb == ExamData.P (current_exam st) /\
    on_submit st user_ra user_rb = Ok v /\
    on_submit st ra rb = Ok v' /\
    marked_correct v' = true /\
    fig_ans v' <> None.
Proof.
  pose proof (reachable_in_range st Hreach) as Hr.
  split; [exact Hr|].
  destruct (exam_in_range_solved _ Hr) as (Hs & Hra & Hrb).
  set (ra := ExamData.P (current_exam st)
             - ExamData.P (current_exam st) * ExamData.x (current_exam st)
               / ExamData.L (current_exam st)) in *.
  set (rb := ExamData.P (current_exam st) * ExamData.x (current_exam st)
             / ExamData.L (current_exam st)) in *.
  destruct (on_submit_run st user_ra user_rb ra rb Hs) as (v & Hv & _).
  destruct (on_submit_run st ra rb ra rb Hs) as (v' & Hv' & Fa & Fb & Ff).
  exists ra, rb, v, v'.
  split; [exact Hs|]. split; [split; assumption|].
  split; [unfold ra; ring|]. split; [exact Hv|]. split; [exact Hv'|].
  assert (Hnear : forall q : Q, Qltb (Qabs (q - q)) tolerance = true).
  { intros q. apply Qltb_lt.
    assert (E : q - q == 0) by ring. rewrite E. reflexivity. }
  assert (Hm : marked_correct v' = true).
  { unfold marked_correct. now rewrite Fa, Fb, !Hnear. }
  split; [exact Hm|]. rewrite Ff, Hm. discriminate.
Qed.

End SessionProperties.

Lemma reachable_session_is_solvable_witness :
  let randint := (fun a b g => (a + g mod (b - a + 1),
                                (1103515245 * g + 12345) mod 2147483648))%Z in
  let st := fst (on_generate Z randint (init_session ∅) 42%Z) in
  exam_in_range (current_exam st) /\
  exists ra rb v v',
    solve_beam (ExamData.L (current_exam st)) (ExamData.P (current_exam st))
               (ExamData.x (current_exam st)) = Ok (ra, rb) /\
    (0 < ra /\ 0 < rb) /\
    ra + rb == ExamData.P (current_exam st) /\
    on_submit st 0 0 = Ok v /\
    on_submit st ra rb = Ok v' /\
    marked_correct v' = true /\
    fig_ans v' <> None.
Proof.
  cbv zeta.
  apply (reachable_session_is_solvable Z _ lcg_randint_range).
  apply reach_generate, reach_run, reach_fresh.
Defined.

(** ** The arrows of the Level 2 diagram *)

Lemma py_int_nonneg (y : Q) :
  0 <= y -> (0 <= py_int y)%Z /\ y < inject_Z (py_int y + 1).
Proof.
  destruct y as [n d]. unfold py_int, Qle, Qlt, inject_Z. cbn [Qnum Qden].
  intros H. assert (Hn : (0 <= n)%Z) by lia.
  rewrite Z.quot_div_nonneg by lia.
  split.
  - apply Z.div_pos; lia.
  - pose proof (Z.mul_succ_div_gt n (Z.pos d) ltac:(lia)). lia.
Qed.

(** X16.  The blue arrows of [plot_level2]: for [w > 0] and [start <= end] the
    call to [np.linspace] is given at least two samples and does not raise;
    the first arrow stands at [start], the last at [end], and neighbouring
    arrows are less than half a metre apart. *)
Theorem udl_arrows_span_the_segment
  (w s e : Q) (Hw : 0 < w) (Hse : s <= e) :
  exists l,
    udl_arrows (UDL.mk w s e) = Some l /\
    (2 <= List.length l)%nat /\
    nth 0 l 1 == s /\
    nth (List.length l - 1) l 0 == e /\
    forall i : nat, (S i < List.length l)%nat ->
      0 <= nth (S i) l 0 - nth i l 0 /\ nth (S i) l 0 - nth i l 0 < 1 # 2.
Proof.
  unfold udl_arrows. cbn [UDL.w UDL.start UDL.end_].
  assert (Hg : Qgtb w 0 = true) by (apply Qgtb_lt; exact Hw).
  rewrite Hg.
  destruct (py_int_nonneg ((e - s) * 2) ltac:(lra)) as [Hk Hy].
  set (k := py_int ((e - s) * 2)) in *.
  assert (Hn : (k + 2 <? 0)%Z = false) by (apply Z.ltb_ge; lia).
  rewrite Hn. eexists. split; [reflexivity|].
  rewrite linspace_length.
  set (N := Z.to_nat (k + 2)).
  assert (HN : (2 <= N)%nat) by (unfold N; lia).
  assert (HD : inject_Z (Z.of_nat (N - 1)) = inject_Z (k + 1))
    by (f_equal; unfold N; lia).
  assert (HD1 : 1 <= inject_Z (k + 1)).
  { change 1 with (inject_Z 1). rewrite <- Zle_Qle. lia. }
  split; [exact HN|].
  split; [|split].
  - rewrite linspace_nth by lia. rewrite HD.
    change (inject_Z (Z.of_nat 0)) with 0. field. lra.
  - rewrite linspace_nth by lia. rewrite HD. field. lra.
  - intros i Hi. rewrite !linspace_nth by lia. rewrite HD.
    assert (Ei : inject_Z (Z.of_nat (S i)) == inject_Z (Z.of_nat i) + 1).
    { rewrite Nat2Z.inj_succ. unfold Z.succ. rewrite inject_Z_plus. reflexivity. }
    assert (Estep : s + inject_Z (Z.of_nat (S i)) * ((e - s) / inject_Z (k + 1))
                    - (s + inject_Z (Z.of_nat i) * ((e - s) / inject_Z (k + 1)))
                    == (e - s) / inject_Z (k + 1)).
    { rewrite Ei. field. lra. }
    rewrite Estep. split.
    + apply Qle_shift_div_l; lra.
    + apply Qlt_shift_div_r; lra.
Qed.

Lemma udl_arrows_span_the_segment_witness :
  exists l,
    udl_arrows (UDL.mk 10 2 (15 # 2)) = Some l /\
    (2 <= List.length l)%nat /\
    nth 0 l 1 == 2 /\
    nth (List.length l - 1) l 0 == 15 # 2 /\
    forall i : nat, (S i < List.length l)%nat ->
      0 <= nth (S i) l 0 - nth i l 0 /\ nth (S i) l 0 - nth i l 0 < 1 # 2.
Proof.
  apply (udl_arrows_span_the_segment 10 2 (15 # 2)).
  - reflexivity.
  - vm_compute. discriminate.
Defined.

Example udl_arrows_count :
  option_map (@List.length Q) (udl_arrows (UDL.mk 10 2 (15 # 2))) = Some 13%nat /\
  udl_arrows (UDL.mk 0 2 6) = Some [] /\
  udl_arrows (UDL.mk 10 6 2) = None.
Proof. repeat split; vm_compute; reflexivity. Qed.

(** X17.  The "Max V" label of [plot_answer]: for a downward load ([P >= 0]) at
    [x >= 0] the largest sampled shear is the left reaction the figure was
    given, so the label shows [Ra]. *)
Theorem answer_figure_shows_left_reaction
  (L P x ra rb : Q) (HP : 0 <= P) (Hx : 0 <= x) :
  exists m, max_V (plot_answer L P x ra rb) = Some m /\ m == ra.
Proof.
  destruct (py_max_spec _ (grid_nonempty
              (fun val => fst (answer_section P x ra val)) L))
    as (m & Hm & Hin & Hall).
  exists m. split; [exact Hm|].
  assert (Hle : m <= ra).
  { apply in_map_iff in Hin. destruct Hin as (v & <- & _).
    unfold answer_section. destruct (Qgtb v x); cbn [fst]; lra. }
  assert (Hge : ra <= m).
  { apply (proj1 (List.Forall_forall _ _) Hall).
    apply in_map_iff. exists (nth 0 (linspace 0 L 500) 0). split.
    - unfold answer_section.
      assert (E : Qgtb (nth 0 (linspace 0 L 500) 0) x = false).
      { apply Qgtb_le. rewrite linspace_nth by lia.
        change (inject_Z (Z.of_nat 0)) with 0. lra. }
      now rewrite E.
    - apply nth_In. rewrite linspace_length. lia. }
  lra.
Qed.

Lemma answer_figure_shows_left_reaction_witness :
  exists m, max_V (plot_answer 10 100 5 50 50) = Some m /\ m == 50.
Proof.
  apply (answer_figure_shows_left_reaction 10 100 5 50 50);
    vm_compute; discriminate.
Defined.
